(** * Gemini Kinetic: the streaming core of [src/App.tsx]

    A shallow embedding of the [App] component of [src/App.tsx]: its two
    pieces of React state ([particleState], [connection]), its refs, the two
    callbacks it hands to the live session client ([handleStateUpdate],
    [handleError]), and the asynchronous functions [startStream] and
    [stopStream] together with the frame interval they install.

    JavaScript objects built with spread syntax are finite maps from
    property names to values; numbers are IEEE 754 binary64 floats; the
    asynchronous parts of the component are a step function over the events
    the browser delivers (a button click, a promise settling, the interval
    firing, an inbound message). *)

From Stdlib Require Import PrimFloat ZArith.
From stdpp Require Import gmap strings list fin_maps.

Local Open Scope string_scope.
Set Warnings "-inexact-float".

(** ** JavaScript values and objects *)

(** The values a property of [ParticleState] or of a partial update can
    hold at run time. *)
Inductive JsVal : Type :=
  | JUndefined
  | JNull
  | JBool (b : bool)
  | JNum (x : float)
  | JStr (s : string).

(** An object literal: own enumerable properties by name. *)
Abbreviation JsObject := (gmap string JsVal).

(** [{ ...prev, ...update }]: the properties of [prev], then those of
    [update] written over them.  stdpp's union is left-biased. *)
Definition spread2 (prev update : JsObject) : JsObject := update ∪ prev.

(** App.tsx, lines 13-19. *)
Definition INITIAL_STATE : JsObject :=
  <["shape" := JStr "sphere"]>
  (<["expansion" := JNum 1.0]>
  (<["colorPalette" := JStr "neon"]>
  (<["speed" := JNum 0.5]>
  (<["rotationSpeed" := JNum 0.2]> ∅)))).

(** ** The state of the connection, as the component keeps it *)

(** [LiveConnectionState]; [error] is [string | null].  App.tsx, lines
    23-27. *)
Record LiveConnectionState : Type := {
  isConnected : bool;
  isStreaming : bool;
  error : option string;
}.

Definition with_isConnected (b : bool) (c : LiveConnectionState) : LiveConnectionState :=
  {| isConnected := b; isStreaming := isStreaming c; error := error c |}.

Definition with_isStreaming (b : bool) (c : LiveConnectionState) : LiveConnectionState :=
  {| isConnected := isConnected c; isStreaming := b; error := error c |}.

Definition with_error (e : option string) (c : LiveConnectionState) : LiveConnectionState :=
  {| isConnected := isConnected c; isStreaming := isStreaming c; error := e |}.

(** The object literal of lines 23-27, written again at line 96. *)
Definition disconnected : LiveConnectionState :=
  {| isConnected := false; isStreaming := false; error := None |}.

(** ** The live session client

    [./services/liveApiService] is imported by App.tsx but is not part of
    the sources at hand; the component only constructs the client, calls
    [connect], [sendVideoFrame] and [disconnect] on it, and receives its
    two callbacks. *)
Module LiveApiService.

(** Modelled from the spec: the state machine of the Session Client
    (section 4.1), whose implementation is missing.  [Idle] is initial,
    [Closed] is terminal for a session. *)
Inductive SessionState : Type := Idle | Connecting | Active | Closed.

#[global] Instance SessionState_eq_dec : EqDecision SessionState.
Proof. solve_decision. Defined.

(** Modelled from the spec: the inbound message shapes of section 6,
    [{ type: "state-update", fields }] and [{ type: "error", reason }]. *)
Inductive Message : Type :=
  | StateUpdate (fields : JsObject)
  | Error (reason : string).

(** Modelled from the spec: the callback surface of section 6,
    [onStateUpdate] and [onError], which the missing client invokes. *)
Inductive Callback : Type :=
  | OnStateUpdate (update : JsObject)
  | OnError (reason : string).

(** What one call on the client yields: its next state, the callbacks it
    fires, the units of work it hands to the transport, and the exception
    it raises, if any. *)
Record Outcome : Type := {
  next : SessionState;
  fired : list Callback;
  sent : list string;
  raised : option string;
}.

Definition quiet (s : SessionState) : Outcome :=
  {| next := s; fired := []; sent := []; raised := None |}.

(** Modelled from the spec: [connect()] of the missing client, section
    4.1: Idle to Connecting; the client is reusable, so a Closed client
    connects again.  A call while Connecting or Active is undefined
    behaviour in the spec (section 5) and has no transition here. *)
Definition connect (s : SessionState) : option SessionState :=
  match s with
  | Idle | Closed => Some Connecting
  | Connecting | Active => None
  end.

(** Modelled from the spec: the handle of the missing client is
    established, "On success -> Active"; a transition of Connecting
    only. *)
Definition established (s : SessionState) : option SessionState :=
  match s with
  | Connecting => Some Active
  | _ => None
  end.

(** Modelled from the spec: establishing the handle of the missing client
    fails, "On failure -> Closed, invoking the error callback with a
    descriptive reason"; a transition of Connecting only. *)
Definition failed (reason : string) (s : SessionState) : option Outcome :=
  match s with
  | Connecting =>
      Some {| next := Closed; fired := [OnError reason]; sent := []; raised := None |}
  | _ => None
  end.

(** Modelled from the spec: [sendFrame(payload)] of the missing client
    (App.tsx calls it [sendVideoFrame]), section 4.1: one outbound unit
    of work in Active, a no-op that raises nothing in any other state. *)
Definition sendVideoFrame (payload : string) (s : SessionState) : Outcome :=
  match s with
  | Active => {| next := Active; fired := []; sent := [payload]; raised := None |}
  | _ => quiet s
  end.

(** Modelled from the spec: inbound message arrival at the missing
    client, section 4.1: while Active a partial update is forwarded
    verbatim to the state-update callback, an error message is forwarded
    to the error callback and closes the session; outside Active nothing
    is delivered (the closed flag of section 5). *)
Definition receive (m : Message) (s : SessionState) : Outcome :=
  match s with
  | Active =>
      match m with
      | StateUpdate fields =>
          {| next := Active; fired := [OnStateUpdate fields]; sent := []; raised := None |}
      | Error reason =>
          {| next := Closed; fired := [OnError reason]; sent := []; raised := None |}
      end
  | _ => quiet s
  end.

(** Modelled from the spec: [disconnect()] of the missing client, section
    4.1: Active or Connecting to Closed, a safe no-op from Idle or
    Closed. *)
Definition disconnect (s : SessionState) : SessionState :=
  match s with
  | Active | Connecting => Closed
  | Idle | Closed => s
  end.

End LiveApiService.

(** ** The component and the browser around it *)

(** An encoded frame, as [toBlob] hands it to its callback. *)
Abbreviation Blob := (list Byte.byte).

(** What the component does that can be seen from outside it, newest
    first: the invocations of its two callbacks, the requests it makes to
    the media and timer interfaces with their arguments, the calls of
    [sendVideoFrame], and the units of work the session client hands to the
    transport. *)
Inductive Effect : Type :=
  | CallHandleStateUpdate (update : JsObject)
  | CallHandleError (reason : string)
  | CallGetUserMedia (width height : Z) (audio : bool)
  | CallDrawImage (dx dy dw dh : Z)
  | CallToBlob (type : string) (quality : float)
  | CallSetInterval (delay : Z) (id : nat)
  | CallSendVideoFrame (base64 : string)
  | Outbound (payload : string).

(** The hooks of [App] (lines 22-33), the part of the browser they reach,
    and the asynchronous work [App] has started and not yet heard back
    from. *)
Record World : Type := {
  (* useState *)
  particleState : JsObject;
  connection : LiveConnectionState;
  (* useRef: [true] when [.current] is an element, [Some] when non-null *)
  videoRef : bool;
  canvasRef : bool;
  liveApiRef : option LiveApiService.SessionState;
  streamRef : option nat;
  frameIntervalRef : option nat;
  (* window and media devices *)
  timers : gset nat;            (* intervals that are set and not cleared *)
  nextTimer : nat;              (* the handle the next setInterval returns *)
  liveStreams : gset nat;       (* media streams whose tracks are not stopped *)
  context2d : bool;             (* whether getContext('2d') yields a context *)
  (* promises and callbacks outstanding *)
  pendingGetUserMedia : nat;    (* startStream suspended at line 55 *)
  pendingPlay : nat;            (* startStream suspended at line 63 *)
  pendingConnect : nat;         (* startStream suspended at line 66 *)
  pendingToBlob : nat;          (* toBlob callbacks not yet invoked, line 76 *)
  pendingBase64 : nat;          (* toBlob callbacks suspended at line 78 *)
  (* history *)
  log : list Effect;
}.

(** [setParticleState(f)] and [setConnection(f)] with an updater function;
    a plain value [v] is the updater [fun _ => v].  React applies queued
    updaters in the order of the calls, each to the result of the one
    before. *)
Definition setParticleState (f : JsObject -> JsObject) (w : World) : World :=
  Build_World (f (particleState w)) (connection w) (videoRef w) (canvasRef w)
    (liveApiRef w) (streamRef w) (frameIntervalRef w) (timers w) (nextTimer w)
    (liveStreams w) (context2d w) (pendingGetUserMedia w) (pendingPlay w)
    (pendingConnect w) (pendingToBlob w) (pendingBase64 w) (log w).

Definition setConnection (f : LiveConnectionState -> LiveConnectionState) (w : World) : World :=
  Build_World (particleState w) (f (connection w)) (videoRef w) (canvasRef w)
    (liveApiRef w) (streamRef w) (frameIntervalRef w) (timers w) (nextTimer w)
    (liveStreams w) (context2d w) (pendingGetUserMedia w) (pendingPlay w)
    (pendingConnect w) (pendingToBlob w) (pendingBase64 w) (log w).

Definition set_liveApiRef (s : option LiveApiService.SessionState) (w : World) : World :=
  Build_World (particleState w) (connection w) (videoRef w) (canvasRef w)
    s (streamRef w) (frameIntervalRef w) (timers w) (nextTimer w)
    (liveStreams w) (context2d w) (pendingGetUserMedia w) (pendingPlay w)
    (pendingConnect w) (pendingToBlob w) (pendingBase64 w) (log w).

Definition set_streamRef (s : option nat) (w : World) : World :=
  Build_World (particleState w) (connection w) (videoRef w) (canvasRef w)
    (liveApiRef w) s (frameIntervalRef w) (timers w) (nextTimer w)
    (liveStreams w) (context2d w) (pendingGetUserMedia w) (pendingPlay w)
    (pendingConnect w) (pendingToBlob w) (pendingBase64 w) (log w).

Definition set_frameIntervalRef (i : option nat) (w : World) : World :=
  Build_World (particleState w) (connection w) (videoRef w) (canvasRef w)
    (liveApiRef w) (streamRef w) i (timers w) (nextTimer w)
    (liveStreams w) (context2d w) (pendingGetUserMedia w) (pendingPlay w)
    (pendingConnect w) (pendingToBlob w) (pendingBase64 w) (log w).

Definition set_timers (t : gset nat) (n : nat) (w : World) : World :=
  Build_World (particleState w) (connection w) (videoRef w) (canvasRef w)
    (liveApiRef w) (streamRef w) (frameIntervalRef w) t n
    (liveStreams w) (context2d w) (pendingGetUserMedia w) (pendingPlay w)
    (pendingConnect w) (pendingToBlob w) (pendingBase64 w) (log w).

Definition set_liveStreams (l : gset nat) (w : World) : World :=
  Build_World (particleState w) (connection w) (videoRef w) (canvasRef w)
    (liveApiRef w) (streamRef w) (frameIntervalRef w) (timers w) (nextTimer w)
    l (context2d w) (pendingGetUserMedia w) (pendingPlay w)
    (pendingConnect w) (pendingToBlob w) (pendingBase64 w) (log w).

Definition set_pendingStart (g p c : nat) (w : World) : World :=
  Build_World (particleState w) (connection w) (videoRef w) (canvasRef w)
    (liveApiRef w) (streamRef w) (frameIntervalRef w) (timers w) (nextTimer w)
    (liveStreams w) (context2d w) g p c (pendingToBlob w) (pendingBase64 w) (log w).

Definition set_pendingFrame (b c : nat) (w : World) : World :=
  Build_World (particleState w) (connection w) (videoRef w) (canvasRef w)
    (liveApiRef w) (streamRef w) (frameIntervalRef w) (timers w) (nextTimer w)
    (liveStreams w) (context2d w) (pendingGetUserMedia w) (pendingPlay w)
    (pendingConnect w) b c (log w).

Definition record (e : Effect) (w : World) : World :=
  Build_World (particleState w) (connection w) (videoRef w) (canvasRef w)
    (liveApiRef w) (streamRef w) (frameIntervalRef w) (timers w) (nextTimer w)
    (liveStreams w) (context2d w) (pendingGetUserMedia w) (pendingPlay w)
    (pendingConnect w) (pendingToBlob w) (pendingBase64 w) (e :: log w).

(** The component once its mount effect (lines 43-49) has constructed the
    client: default state, both elements in place, nothing running. *)
Definition mounted : World :=
  {| particleState := INITIAL_STATE;
     connection := disconnected;
     videoRef := true; canvasRef := true;
     liveApiRef := Some LiveApiService.Idle;
     streamRef := None; frameIntervalRef := None;
     timers := ∅; nextTimer := 1; liveStreams := ∅; context2d := true;
     pendingGetUserMedia := 0; pendingPlay := 0; pendingConnect := 0;
     pendingToBlob := 0; pendingBase64 := 0;
     log := [] |}.

(** ** The callbacks handed to the client *)

(** Lines 35-37: [setParticleState(prev => ({ ...prev, ...update }))]. *)
Definition handleStateUpdate (update : JsObject) (w : World) : World :=
  setParticleState (fun prev => spread2 prev update)
    (record (CallHandleStateUpdate update) w).

(** Lines 39-41: [setConnection(prev => ({ ...prev, error, isConnected:
    false, isStreaming: false }))]. *)
Definition handleError (reason : string) (w : World) : World :=
  setConnection
    (fun prev => with_isStreaming false (with_isConnected false (with_error (Some reason) prev)))
    (record (CallHandleError reason) w).

(** The client was constructed with the two callbacks (line 44); what it
    fires reaches them in order. *)
Definition deliver (cb : LiveApiService.Callback) (w : World) : World :=
  match cb with
  | LiveApiService.OnStateUpdate update => handleStateUpdate update w
  | LiveApiService.OnError reason => handleError reason w
  end.

(** The component takes the outcome of a call on the client: the client's
    next state is kept in [liveApiRef], what it sent is noted, what it
    fired is delivered. *)
Definition absorb (o : LiveApiService.Outcome) (w : World) : World :=
  foldl (fun w cb => deliver cb w)
    (foldl (fun w p => record (Outbound p) w)
       (set_liveApiRef (Some (LiveApiService.next o)) w)
       (LiveApiService.sent o))
    (LiveApiService.fired o).

(** ** [startStream], lines 51-88, cut at its three [await]s *)

(** How a promise settles.  What is thrown is an [Error] or [DOMException]
    object, of which the handler reads the [message] string only. *)
Inductive Settled (A : Type) : Type :=
  | Fulfilled (a : A)
  | Rejected (message : string).
Arguments Fulfilled {A} a.
Arguments Rejected {A} message.

(** [x || d] on a string [x]: the empty string is falsy. *)
Definition or_else (x d : string) : string :=
  match x with
  | EmptyString => d
  | _ => x
  end.

(** Lines 85-87, the [catch] block. *)
Definition startStream_catch (message : string) (w : World) : World :=
  handleError (or_else message "Failed to access camera") w.

(** Lines 53-58: up to the first [await]. *)
Definition startStream (w : World) : World :=
  let w := setConnection
             (fun _ => {| isConnected := false; isStreaming := true; error := None |}) w in
  let w := record (CallGetUserMedia 320 240 true) w in
  set_pendingStart (S (pendingGetUserMedia w)) (pendingPlay w) (pendingConnect w) w.

(** [window.setInterval(callback, delay)]: a fresh handle, from then on
    set. *)
Definition setInterval (delay : Z) (w : World) : nat * World :=
  let id := nextTimer w in
  (id, record (CallSetInterval delay id) (set_timers ({[ id ]} ∪ timers w) (S id) w)).

(** Lines 67-83: after [connect()] has resolved. *)
Definition startStream_connected (w : World) : World :=
  let w := setConnection (fun prev => with_isConnected true prev) w in
  if canvasRef w && context2d w && videoRef w then
    let '(id, w) := setInterval 500 w in
    set_frameIntervalRef (Some id) w
  else w.

(** Line 66: [await liveApiRef.current?.connect()].  With no client the
    awaited value is [undefined] and the function goes on.  With a client
    the call is made whatever state the client is in: where section 4.1
    has a transition for it the client takes it, and where the spec leaves
    the call undefined (Connecting, Active) the client is left as it is;
    either way [startStream] waits for the promise. *)
Definition startStream_connect (w : World) : World :=
  match liveApiRef w with
  | None => startStream_connected w
  | Some s =>
      let w := set_liveApiRef (Some (default s (LiveApiService.connect s))) w in
      set_pendingStart (pendingGetUserMedia w) (pendingPlay w) (S (pendingConnect w)) w
  end.

(** Lines 60-64: after [getUserMedia] has settled.  The stream delivered
    has running tracks. *)
Definition startStream_acquired (r : Settled nat) (w : World) : World :=
  match r with
  | Fulfilled stream =>
      let w := set_liveStreams ({[ stream ]} ∪ liveStreams w) w in
      let w := set_streamRef (Some stream) w in
      if videoRef w then
        set_pendingStart (pendingGetUserMedia w) (S (pendingPlay w)) (pendingConnect w) w
      else startStream_connect w
  | Rejected message => startStream_catch message w
  end.

(** After [videoRef.current.play()] has settled. *)
Definition startStream_playing (r : Settled unit) (w : World) : World :=
  match r with
  | Fulfilled _ => startStream_connect w
  | Rejected message => startStream_catch message w
  end.

(** After the promise of [connect()] has settled, [startStream] resumes
    at line 67 or in its [catch] without looking at the client.  A client
    that is still Connecting leaves that state as section 4.1 says; a
    client that has been closed or has become active in the meantime is
    left as it is. *)
Definition startStream_settled (r : Settled unit) (w : World) : World :=
  match r with
  | Fulfilled _ =>
      startStream_connected
        match liveApiRef w with
        | Some s => set_liveApiRef (Some (default s (LiveApiService.established s))) w
        | None => w
        end
  | Rejected message =>
      startStream_catch message
        match liveApiRef w with
        | Some s =>
            absorb (default (LiveApiService.quiet s) (LiveApiService.failed message s)) w
        | None => w
        end
  end.

(** ** The frame loop, lines 72-82 *)

(** The interval callback.  [drawn] tells whether [drawImage] returned;
    when it throws, the promise of the async callback rejects and nobody
    listens. *)
Definition frameInterval (drawn : bool) (w : World) : World :=
  if negb (videoRef w) || negb (bool_decide (is_Some (liveApiRef w))) then w
  else
    let w := record (CallDrawImage 0 0 320 240) w in
    if drawn then
      if canvasRef w then
        let w := record (CallToBlob "image/jpeg" 0.6) w in
        set_pendingFrame (S (pendingToBlob w)) (pendingBase64 w) w
      else w
    else w.

(** The callback given to [toBlob], up to its [await]. *)
Definition toBlobCallback (blob : option Blob) (w : World) : World :=
  match blob with
  | Some _ => set_pendingFrame (pendingToBlob w) (S (pendingBase64 w)) w
  | None => w
  end.

(** The callback given to [toBlob], after [blobToBase64] has settled: line
    79, or an unhandled rejection. *)
Definition toBlobCallback_encoded (r : Settled string) (w : World) : World :=
  match r with
  | Fulfilled base64 =>
      match liveApiRef w with
      | Some s =>
          absorb (LiveApiService.sendVideoFrame base64 s)
            (record (CallSendVideoFrame base64) w)
      | None => w
      end
  | Rejected _ => w
  end.

(** ** [stopStream], lines 90-97 *)

(** [clearInterval(id)]. *)
Definition clearInterval (id : nat) (w : World) : World :=
  set_timers (timers w ∖ {[ id ]}) (nextTimer w) w.

(** [stream.getTracks().forEach(track => track.stop())]. *)
Definition stopTracks (stream : nat) (w : World) : World :=
  set_liveStreams (liveStreams w ∖ {[ stream ]}) w.

Definition stopStream (w : World) : World :=
  let w := match frameIntervalRef w with
           | Some (S _ as id) => clearInterval id w
           | Some O | None => w          (* 0 and null are falsy *)
           end in
  let w := match streamRef w with
           | Some stream => stopTracks stream w
           | None => w
           end in
  let w := match liveApiRef w with
           | Some s => set_liveApiRef (Some (LiveApiService.disconnect s)) w
           | None => w
           end in
  setConnection (fun _ => disconnected) w.

(** ** Events *)

(** What happens to the component: its two buttons (lines 133 and 140; the
    unmount cleanup of line 46 calls [stopStream] as well), the promises it
    awaits settling, the interval firing, [toBlob] calling back, a message
    arriving at the client. *)
Inductive Event : Type :=
  | StartStream
  | StopStream
  | GetUserMediaSettled (r : Settled nat)
  | PlaySettled (r : Settled unit)
  | ConnectSettled (r : Settled unit)
  | IntervalFires (id : nat) (drawn : bool)
  | ToBlobCalls (blob : option Blob)
  | Base64Settled (r : Settled string)
  | Inbound (m : LiveApiService.Message).

(** One event; [None] when it cannot happen in [w]: no such promise or
    callback is outstanding, or the interval is not set. *)
Definition step (w : World) (e : Event) : option World :=
  match e with
  | StartStream => Some (startStream w)
  | StopStream => Some (stopStream w)
  | GetUserMediaSettled r =>
      match pendingGetUserMedia w with
      | S n =>
          Some (startStream_acquired r
                  (set_pendingStart n (pendingPlay w) (pendingConnect w) w))
      | O => None
      end
  | PlaySettled r =>
      match pendingPlay w with
      | S n =>
          Some (startStream_playing r
                  (set_pendingStart (pendingGetUserMedia w) n (pendingConnect w) w))
      | O => None
      end
  | ConnectSettled r =>
      match pendingConnect w with
      | S n =>
          Some (startStream_settled r
                  (set_pendingStart (pendingGetUserMedia w) (pendingPlay w) n w))
      | O => None
      end
  | IntervalFires id drawn =>
      if bool_decide (id ∈ timers w) then Some (frameInterval drawn w) else None
  | ToBlobCalls blob =>
      match pendingToBlob w with
      | S n => Some (toBlobCallback blob (set_pendingFrame n (pendingBase64 w) w))
      | O => None
      end
  | Base64Settled r =>
      match pendingBase64 w with
      | S n => Some (toBlobCallback_encoded r (set_pendingFrame (pendingToBlob w) n w))
      | O => None
      end
  | Inbound m =>
      match liveApiRef w with
      | Some s => Some (absorb (LiveApiService.receive m s) w)
      | None => Some w
      end
  end.

Fixpoint run (w : World) (es : list Event) : option World :=
  match es with
  | [] => Some w
  | e :: es =>
      match step w e with
      | Some w' => run w' es
      | None => None
      end
  end.

(** ** What the claims speak of *)

(** The partial updates [us], oldest first, each passed to
    [handleStateUpdate]. *)
Definition applyUpdates (us : list JsObject) (w : World) : World :=
  foldl (fun w u => handleStateUpdate u w) w us.

(** In the words of the spec: for a field, "the value from the last Ui that
    specified it", if any did. *)
Fixpoint last_specified (k : string) (us : list JsObject) : option JsVal :=
  match us with
  | [] => None
  | u :: rest =>
      match last_specified k rest with
      | Some v => Some v
      | None => u !! k
      end
  end.

Definition isCallback (e : Effect) : bool :=
  match e with
  | CallHandleStateUpdate _ | CallHandleError _ => true
  | _ => false
  end.

Definition isSend (e : Effect) : bool :=
  match e with
  | CallSendVideoFrame _ => true
  | _ => false
  end.

(** The invocations of [handleStateUpdate] and [handleError] so far, newest
    first. *)
Definition callbacksFired (w : World) : list Effect := List.filter isCallback (log w).

(** The calls of [sendVideoFrame] so far, newest first. *)
Definition framesSent (w : World) : list Effect := List.filter isSend (log w).

(** "After [stopStream] returns, no further callback fires", for what
    happens next being [es]. *)
Definition silent_after_stop (w : World) (es : list Event) : Prop :=
  ∀ w', run (stopStream w) es = Some w' → callbacksFired w' = callbacksFired (stopStream w).

(** No [startStream] is suspended at one of its [await]s. *)
Definition no_start_in_flight (w : World) : Prop :=
  pendingGetUserMedia w = 0 ∧ pendingPlay w = 0 ∧ pendingConnect w = 0.

(** How one tick of the frame loop ends. *)
Inductive Tick : Type :=
  | CaptureFails                          (* drawImage throws *)
  | EncodeFails                           (* toBlob yields null *)
  | ConversionFails (message : string)    (* blobToBase64 rejects *)
  | Encoded (blob : Blob) (base64 : string).

(** The events of one tick of interval [id], from the interval firing to
    the end of the [toBlob] callback. *)
Definition tickEvents (id : nat) (t : Tick) : list Event :=
  match t with
  | CaptureFails => [IntervalFires id false]
  | EncodeFails => [IntervalFires id true; ToBlobCalls None]
  | ConversionFails message =>
      [IntervalFires id true; ToBlobCalls (Some []); Base64Settled (Rejected message)]
  | Encoded blob base64 =>
      [IntervalFires id true; ToBlobCalls (Some blob); Base64Settled (Fulfilled base64)]
  end.

(** The frames the ticks [ts] submit, newest first. *)
Fixpoint submitted (ts : list Tick) (acc : list Effect) : list Effect :=
  match ts with
  | [] => acc
  | Encoded _ base64 :: ts => submitted ts (CallSendVideoFrame base64 :: acc)
  | _ :: ts => submitted ts acc
  end.

(** An effect that carries a capture constant carries the one of the
    source: 320 by 240, 500 ms, quality 0.6. *)
Definition fixedConstants (e : Effect) : Prop :=
  match e with
  | CallGetUserMedia width height _ => width = 320%Z ∧ height = 240%Z
  | CallDrawImage _ _ dw dh => dw = 320%Z ∧ dh = 240%Z
  | CallToBlob type quality => type = "image/jpeg" ∧ quality = 0.6%float
  | CallSetInterval delay _ => delay = 500%Z
  | _ => True
  end.

Definition isStateUpdate (e : Event) : bool :=
  match e with
  | Inbound (LiveApiService.StateUpdate _) => true
  | _ => false
  end.

(** The unmount cleanup, lines 45-48: [stopStream()] and then
    [disconnect()] once more. *)
Definition cleanup (w : World) : World :=
  let w := stopStream w in
  match liveApiRef w with
  | Some s => set_liveApiRef (Some (LiveApiService.disconnect s)) w
  | None => w
  end.

(** The client is neither establishing nor holding a handle. *)
Definition dormant (w : World) : Prop :=
  match liveApiRef w with
  | Some s => s = LiveApiService.Idle ∨ s = LiveApiService.Closed
  | None => True
  end.

(** A session that is streaming, one frame being encoded. *)
Definition streaming : World :=
  default mounted
    (run mounted [StartStream; GetUserMediaSettled (Fulfilled 7); PlaySettled (Fulfilled ());
                  ConnectSettled (Fulfilled ()); IntervalFires 1 true]).





(** What a tick needs to get past line 73 and to [toBlob]. *)
Definition loop_ready (id : nat) (w : World) : Prop :=
  id ∈ timers w ∧ videoRef w = true ∧ canvasRef w = true ∧ is_Some (liveApiRef w).

(** [isConnected] is false and there is a client. *)
Definition not_connected (w : World) : Prop :=
  isConnected (connection w) = false ∧ is_Some (liveApiRef w).

(** Everything but [connection] and [log] is the same in [w'] as in [w]. *)
Definition same_but_connection (w w' : World) : Prop :=
  particleState w' = particleState w
  ∧ videoRef w' = videoRef w ∧ canvasRef w' = canvasRef w
  ∧ liveApiRef w' = liveApiRef w ∧ streamRef w' = streamRef w
  ∧ frameIntervalRef w' = frameIntervalRef w
  ∧ timers w' = timers w ∧ nextTimer w' = nextTimer w
  ∧ liveStreams w' = liveStreams w ∧ context2d w' = context2d w
  ∧ pendingGetUserMedia w' = pendingGetUserMedia w ∧ pendingPlay w' = pendingPlay w
  ∧ pendingConnect w' = pendingConnect w
  ∧ pendingToBlob w' = pendingToBlob w ∧ pendingBase64 w' = pendingBase64 w.

(** A session that has received one gesture. *)
Definition gestured : World :=
  default mounted
    (run streaming [Inbound (LiveApiService.StateUpdate {[ "shape" := JStr "heart" ]})]).

(** ** What the component renders, lines 99-213

    The parts of the returned element that depend on the state: which of
    the two buttons is there (lines 131-145), the error banner (lines
    147-151; [connection.error && ...] renders nothing for [null] and for
    the empty string), the "Live Connected" badge (lines 153-157) and the
    border class of the video element (line 188). *)
Record View : Type := {
  startButton : bool;
  stopButton : bool;
  errorBanner : option string;
  liveBadge : bool;
  videoBorder : string;
}.

Definition render (w : World) : View :=
  {| startButton := negb (isStreaming (connection w));
     stopButton := isStreaming (connection w);
     errorBanner :=
       match error (connection w) with
       | Some (String _ _ as e) => Some e
       | Some EmptyString | None => None
       end;
     liveBadge := isConnected (connection w);
     videoBorder :=
       if isConnected (connection w) then "border-green-500/50" else "border-gray-700" |}.

(** ** Further vocabulary *)

(** The partial updates [us], oldest first, spread into one object. *)
Definition mergeAll (us : list JsObject) : JsObject := foldl spread2 ∅ us.

(** Everything but [particleState] and [log] is the same in [w'] as in
    [w]. *)
Definition same_but_particleState (w w' : World) : Prop :=
  connection w' = connection w
  ∧ videoRef w' = videoRef w ∧ canvasRef w' = canvasRef w
  ∧ liveApiRef w' = liveApiRef w ∧ streamRef w' = streamRef w
  ∧ frameIntervalRef w' = frameIntervalRef w
  ∧ timers w' = timers w ∧ nextTimer w' = nextTimer w
  ∧ liveStreams w' = liveStreams w ∧ context2d w' = context2d w
  ∧ pendingGetUserMedia w' = pendingGetUserMedia w ∧ pendingPlay w' = pendingPlay w
  ∧ pendingConnect w' = pendingConnect w
  ∧ pendingToBlob w' = pendingToBlob w ∧ pendingBase64 w' = pendingBase64 w.

(** Interval handles are positive and below the next one to be handed
    out, those that are set and the one [frameIntervalRef] holds. *)
Definition handles_fresh (w : World) : Prop :=
  (0 < nextTimer w)%nat
  ∧ (∀ id, id ∈ timers w → (0 < id < nextTimer w)%nat)
  ∧ (∀ id, frameIntervalRef w = Some id → (0 < id < nextTimer w)%nat).

(** Interval [id] is set and [frameIntervalRef] does not hold it. *)
Definition orphaned (id : nat) (w : World) : Prop :=
  id ∈ timers w ∧ frameIntervalRef w ≠ Some id.

(** Stream [s] has running tracks and [streamRef] does not hold it. *)
Definition unheld (s : nat) (w : World) : Prop :=
  s ∈ liveStreams w ∧ streamRef w ≠ Some s.

Definition isDraw (e : Effect) : bool :=
  match e with
  | CallDrawImage _ _ _ _ => true
  | _ => false
  end.

Definition isToBlob (e : Effect) : bool :=
  match e with
  | CallToBlob _ _ => true
  | _ => false
  end.

(** How many effects of a kind the log holds. *)
Definition count (p : Effect → bool) (w : World) : nat := length (List.filter p (log w)).

(** Every frame submitted or still being encoded came out of a [toBlob]
    call, and every [toBlob] call followed a [drawImage]. *)
Definition frames_accounted (w : World) : Prop :=
  (count isSend w + pendingBase64 w + pendingToBlob w ≤ count isToBlob w)%nat
  ∧ (count isToBlob w ≤ count isDraw w)%nat.

(** A second session, started after the first was closed by an error
    message, and then stopped. *)
Definition restarted : World :=
  default mounted
    (run streaming [Inbound (LiveApiService.Error "rate limited"); StartStream;
                    GetUserMediaSettled (Fulfilled 8); PlaySettled (Fulfilled ());
                    ConnectSettled (Fulfilled ())]).

(** * Properties *)

(** Evaluates a run over a world given by its fields, leaving the set
    operations and the choice of message as they are. *)
Ltac run_eval := cbv -[union singleton difference or_else]; reflexivity.

(** Unfolds the operations on a world given by its fields, leaving the set
    operations and [disconnect] as they are. *)
Ltac world_unfold :=
  cbv -[union singleton difference LiveApiService.disconnect].

(** ** Examples *)

Example initial_shape : INITIAL_STATE !! "shape" = Some (JStr "sphere").
Proof. reflexivity. Qed.

Example spread_heart :
  spread2 INITIAL_STATE {[ "shape" := JStr "heart" ]} !! "shape" = Some (JStr "heart")
  /\ spread2 INITIAL_STATE {[ "shape" := JStr "heart" ]} !! "speed" = Some (JNum 0.5).
Proof. split; reflexivity. Qed.


Example start_to_active :
  (λ w, (connection w, liveApiRef w, frameIntervalRef w, timers w)) <$>
    run mounted [StartStream; GetUserMediaSettled (Fulfilled 7); PlaySettled (Fulfilled ());
                 ConnectSettled (Fulfilled ())]
  = Some ({| isConnected := true; isStreaming := true; error := None |},
          Some LiveApiService.Active, Some 1, {[ 1 ]}).
Proof. vm_compute. reflexivity. Qed.

Example heart_arrives :
  ∃ w, run mounted [StartStream; GetUserMediaSettled (Fulfilled 7); PlaySettled (Fulfilled ());
                    ConnectSettled (Fulfilled ());
                    Inbound (LiveApiService.StateUpdate {[ "shape" := JStr "heart" ]})] = Some w
       ∧ particleState w !! "shape" = Some (JStr "heart")
       ∧ particleState w !! "colorPalette" = Some (JStr "neon").
Proof. eexists. split; [vm_compute; reflexivity|]. split; vm_compute; reflexivity. Qed.

(** ** Merging partial updates *)

Lemma particleState_handleStateUpdate (u : JsObject) (w : World) :
  particleState (handleStateUpdate u w) = u ∪ particleState w.
Proof. reflexivity. Qed.

Lemma lookup_spread2 (prev update : JsObject) (k : string) :
  spread2 prev update !! k =
    match update !! k with
    | Some v => Some v
    | None => prev !! k
    end.
Proof.
  unfold spread2. rewrite lookup_union.
  destruct (update !! k), (prev !! k); reflexivity.
Qed.

Lemma applyUpdates_lookup (us : list JsObject) (w : World) (k : string) :
  particleState (applyUpdates us w) !! k =
    match last_specified k us with
    | Some v => Some v
    | None => particleState w !! k
    end.
Proof.
  revert w. induction us as [|u rest IH]; intros w; [reflexivity|].
  change (applyUpdates (u :: rest) w) with (applyUpdates rest (handleStateUpdate u w)).
  rewrite IH. cbn [last_specified].
  destruct (last_specified k rest); [reflexivity|].
  rewrite particleState_handleStateUpdate.
  apply (lookup_spread2 (particleState w) u k).
Qed.

Lemma applyUpdates_dom (us : list JsObject) (w : World) :
  dom (particleState w) ⊆ dom (particleState (applyUpdates us w)).
Proof.
  revert w. induction us as [|u rest IH]; intros w; [reflexivity|].
  change (applyUpdates (u :: rest) w) with (applyUpdates rest (handleStateUpdate u w)).
  etrans; [|apply IH].
  rewrite particleState_handleStateUpdate, dom_union. set_solver.
Qed.

(** C1.  Whatever the state of the component and whatever partial updates
    [us] are passed one after the other to [handleStateUpdate], each field
    [k] of the resulting particle state holds the value of the last update
    that has the field, or what it held before when none has it; and every
    field present before is present after. *)
Theorem handleStateUpdate_last_write_wins (w : World) (us : list JsObject) (k : string) :
  particleState (applyUpdates us w) !! k =
    match last_specified k us with
    | Some v => Some v
    | None => particleState w !! k
    end
  ∧ dom (particleState w) ⊆ dom (particleState (applyUpdates us w)).
Proof. split; [apply applyUpdates_lookup | apply applyUpdates_dom]. Qed.

Example two_updates :
  particleState (applyUpdates [ {[ "shape" := JStr "heart"; "speed" := JNum 2 ]};
                                {[ "shape" := JStr "helix" ]} ] mounted)
  = <["shape" := JStr "helix"]> (<["speed" := JNum 2]> INITIAL_STATE).
Proof. vm_compute. reflexivity. Qed.

(** ** Frames outside an active session *)

Lemma absorb_quiet (s : LiveApiService.SessionState) (w : World) :
  liveApiRef w = Some s → absorb (LiveApiService.quiet s) w = w.
Proof. destruct w; simpl; intros ->; reflexivity. Qed.

(** C2.  In every state of the session client other than Active, a call of
    [sendVideoFrame] with any payload leaves the client in its state, fires
    no callback, hands nothing to the transport and raises nothing; and the
    component that makes the call (line 79) is left as it was, but for the
    call itself being noted. *)
Theorem sendVideoFrame_outside_active_is_noop
    (s : LiveApiService.SessionState) (payload : string) (w : World) :
  s ≠ LiveApiService.Active →
  LiveApiService.sendVideoFrame payload s =
    {| LiveApiService.next := s; LiveApiService.fired := [];
       LiveApiService.sent := []; LiveApiService.raised := None |}
  ∧ toBlobCallback_encoded (Fulfilled payload) (set_liveApiRef (Some s) w)
    = record (CallSendVideoFrame payload) (set_liveApiRef (Some s) w).
Proof.
  intros Hs.
  assert (LiveApiService.sendVideoFrame payload s = LiveApiService.quiet s) as Hq
    by (destruct s; [reflexivity | reflexivity | contradiction | reflexivity]).
  split; [exact Hq|].
  unfold toBlobCallback_encoded. cbn [liveApiRef set_liveApiRef].
  rewrite Hq. apply absorb_quiet. reflexivity.
Qed.

Lemma sendVideoFrame_outside_active_is_noop_witness :
  LiveApiService.sendVideoFrame "AAAA" LiveApiService.Closed =
    {| LiveApiService.next := LiveApiService.Closed; LiveApiService.fired := [];
       LiveApiService.sent := []; LiveApiService.raised := None |}
  ∧ toBlobCallback_encoded (Fulfilled "AAAA") (set_liveApiRef (Some LiveApiService.Closed) mounted)
    = record (CallSendVideoFrame "AAAA") (set_liveApiRef (Some LiveApiService.Closed) mounted).
Proof.
  apply (sendVideoFrame_outside_active_is_noop LiveApiService.Closed "AAAA" mounted).
  discriminate.
Defined.

Example sendVideoFrame_active :
  LiveApiService.sent (LiveApiService.sendVideoFrame "AAAA" LiveApiService.Active) = ["AAAA"].
Proof. reflexivity. Qed.

(** ** After [stopStream] *)

Lemma not_elem_of_cleared (id : nat) (t : gset nat) : id ∉ t ∖ {[ id ]}.
Proof. rewrite elem_of_difference, elem_of_singleton. tauto. Qed.

Lemma dormant_stopStream (w : World) : dormant (stopStream w).
Proof.
  unfold dormant, stopStream.
  destruct w as [ps c v cv [[]|] sr [[|i]|] t n ls c2 g p k tb b64 l], sr; simpl; auto.
Qed.

Lemma no_start_in_flight_stopStream (w : World) :
  no_start_in_flight w → no_start_in_flight (stopStream w).
Proof.
  unfold no_start_in_flight, stopStream.
  destruct w as [ps c v cv [s|] sr [[|i]|] t n ls c2 g p k tb b64 l], sr; simpl; auto.
Qed.

Lemma callbacksFired_stopStream (w : World) :
  callbacksFired (stopStream w) = callbacksFired w.
Proof.
  unfold callbacksFired, stopStream.
  destruct w as [ps c v cv [s|] sr [[|i]|] t n ls c2 g p k tb b64 l], sr; reflexivity.
Qed.

(** Once no [startStream] is in flight and the client is dormant, an event
    other than a new [startStream] keeps it so and fires no callback. *)
Lemma step_dormant (w w' : World) (e : Event) :
  no_start_in_flight w → dormant w → e ≠ StartStream → step w e = Some w' →
  no_start_in_flight w' ∧ dormant w' ∧ callbacksFired w' = callbacksFired w.
Proof.
  intros (Hg & Hp & Hc) Hd He Hstep.
  destruct e as [| |r|r|r|id drawn|blob|r|m]; simpl in Hstep.
  - contradiction.
  - injection Hstep as <-.
    split; [apply no_start_in_flight_stopStream; repeat split; assumption|].
    split; [apply dormant_stopStream | apply callbacksFired_stopStream].
  - rewrite Hg in Hstep. discriminate.
  - rewrite Hp in Hstep. discriminate.
  - rewrite Hc in Hstep. discriminate.
  - destruct (bool_decide (id ∈ timers w)); [|discriminate].
    injection Hstep as <-.
    unfold no_start_in_flight, dormant, callbacksFired, frameInterval in *.
    destruct w as [ps c [] [] [s|] sr fi t n ls c2 g p k tb b64 l], drawn;
      simpl in *; auto.
  - destruct (pendingToBlob w) as [|tb'] eqn:Htb; [discriminate|].
    injection Hstep as <-.
    unfold no_start_in_flight, dormant, callbacksFired, toBlobCallback in *.
    destruct w, blob; simpl in *; auto.
  - destruct (pendingBase64 w) as [|b'] eqn:Hb; [discriminate|].
    injection Hstep as <-.
    unfold no_start_in_flight, dormant, callbacksFired, toBlobCallback_encoded in *.
    destruct w as [ps c v cv [s|] sr fi t n ls c2 g p k tb b64 l], r as [base64|msg];
      simpl in *; auto.
    destruct Hd as [-> | ->]; simpl; auto.
  - unfold no_start_in_flight, dormant, callbacksFired in *.
    destruct w as [ps c v cv [s|] sr fi t n ls c2 g p k tb b64 l];
      simpl in *; injection Hstep as <-; simpl; auto.
    destruct Hd as [-> | ->]; simpl; auto.
Qed.

Lemma run_dormant (es : list Event) (w w' : World) :
  no_start_in_flight w → dormant w → StartStream ∉ es → run w es = Some w' →
  no_start_in_flight w' ∧ dormant w' ∧ callbacksFired w' = callbacksFired w.
Proof.
  revert w. induction es as [|e es IH]; intros w Hn Hd Hes Hrun; simpl in Hrun.
  - injection Hrun as <-. auto.
  - destruct (step w e) as [w1|] eqn:Hstep; [|discriminate].
    apply not_elem_of_cons in Hes as [He Hes].
    destruct (step_dormant w w1 e Hn Hd (not_eq_sym He) Hstep) as (Hn1 & Hd1 & Hc1).
    destruct (IH w1 Hn1 Hd1 Hes Hrun) as (Hn' & Hd' & Hc').
    rewrite Hc', Hc1. auto.
Qed.

(** C3, as stated, fails: [startStream] is clicked, [stopStream] is
    clicked while the camera permission is still being asked for, and then
    [getUserMedia] rejects; the [catch] block of [startStream] invokes
    [handleError] after [stopStream] has returned. *)
Lemma stopStream_then_late_rejection_fires_handleError :
  ¬ silent_after_stop (startStream mounted)
      [GetUserMediaSettled (Rejected "permission denied")].
Proof.
  intros H.
  specialize (H (handleError "permission denied"
                   (set_pendingStart 0 0 0 (stopStream (startStream mounted))))).
  assert (callbacksFired
            (handleError "permission denied"
               (set_pendingStart 0 0 0 (stopStream (startStream mounted))))
          = callbacksFired (stopStream (startStream mounted))) as Habs
    by (apply H; vm_compute; reflexivity).
  vm_compute in Habs. discriminate Habs.
Qed.

(** The same race with a camera that is granted late: the [startStream]
    that was in flight goes on after [stopStream], connects and sets the
    interval, and the next inbound update reaches [handleStateUpdate]. *)
Example stopStream_then_late_acquisition_connects :
  (λ w, (connection w, liveApiRef w, timers w, callbacksFired w)) <$>
    run mounted [StartStream; StopStream; GetUserMediaSettled (Fulfilled 7);
                 PlaySettled (Fulfilled ()); ConnectSettled (Fulfilled ());
                 Inbound (LiveApiService.StateUpdate {[ "shape" := JStr "heart" ]})]
  = Some ({| isConnected := true; isStreaming := false; error := None |},
          Some LiveApiService.Active, {[ 1 ]},
          [CallHandleStateUpdate {[ "shape" := JStr "heart" ]}]).
Proof. vm_compute. reflexivity. Qed.

(** C3, amended.  When no [startStream] is in flight at the moment
    [stopStream] is called and none is begun afterwards, then after
    [stopStream] has returned neither [handleStateUpdate] nor [handleError]
    is invoked again, whatever messages arrive, whatever frames were being
    encoded and whatever intervals still fire; and the interval of
    [frameIntervalRef] is cleared. *)
Theorem stopStream_silences_callbacks (w : World) (es : list Event) :
  no_start_in_flight w → StartStream ∉ es →
  silent_after_stop w es
  ∧ match frameIntervalRef w with
    | Some (S i) => S i ∉ timers (stopStream w)
    | _ => True
    end.
Proof.
  intros Hn Hes. split.
  - intros w' Hrun.
    apply (run_dormant es (stopStream w) w'); auto using dormant_stopStream,
      no_start_in_flight_stopStream.
  - unfold stopStream.
    destruct w as [ps c v cv [s|] [sr|] [[|i]|] t n ls c2 g p k tb b64 l]; simpl; auto;
      apply not_elem_of_cleared.
Qed.

Lemma stopStream_silences_callbacks_witness :
  silent_after_stop streaming
    [Inbound (LiveApiService.StateUpdate {[ "shape" := JStr "heart" ]});
     ToBlobCalls (Some []); Base64Settled (Fulfilled "AAAA");
     Inbound (LiveApiService.Error "rate limited"); StopStream]
  ∧ 1 ∉ timers (stopStream streaming).
Proof.
  apply (stopStream_silences_callbacks streaming).
  - vm_compute. auto.
  - intros H. repeat (apply elem_of_cons in H; destruct H as [H|H]; [discriminate H|]).
    apply elem_of_nil in H. exact H.
Defined.

Example after_stop_run :
  (λ w, (callbacksFired w, framesSent w, liveApiRef w)) <$>
    run (stopStream streaming)
      [Inbound (LiveApiService.StateUpdate {[ "shape" := JStr "heart" ]});
       ToBlobCalls (Some []); Base64Settled (Fulfilled "AAAA");
       Inbound (LiveApiService.Error "rate limited"); StopStream]
  = Some ([], [CallSendVideoFrame "AAAA"], Some LiveApiService.Closed).
Proof. vm_compute. reflexivity. Qed.

(** ** [isConnected] and the session handle *)

Lemma isConnected_handleError (w : World) (reason : string) :
  isConnected (connection (handleError reason w)) = false.
Proof. reflexivity. Qed.

Lemma connection_stopStream (w : World) : connection (stopStream w) = disconnected.
Proof. reflexivity. Qed.






(** A second [connect()] made while the first is still being established
    leaves the client Connecting; when the promises resolve the client is
    active, and [isConnected] is true over it. *)
Example second_connect_while_connecting :
  (λ w, (connection w, liveApiRef w, pendingConnect w, timers w)) <$>
    run mounted [StartStream; StopStream; StartStream;
                 GetUserMediaSettled (Fulfilled 7); GetUserMediaSettled (Fulfilled 8);
                 PlaySettled (Fulfilled ()); PlaySettled (Fulfilled ());
                 ConnectSettled (Fulfilled ()); ConnectSettled (Fulfilled ())]
  = Some ({| isConnected := true; isStreaming := true; error := None |},
          Some LiveApiService.Active, 0, {[ 1; 2 ]}).
Proof. vm_compute. reflexivity. Qed.

Example error_message_closes :
  (λ w, (connection w, liveApiRef w, timers w)) <$>
    run streaming [Inbound (LiveApiService.Error "rate limited")]
  = Some ({| isConnected := false; isStreaming := false; error := Some "rate limited" |},
          Some LiveApiService.Closed, {[ 1 ]}).
Proof. vm_compute. reflexivity. Qed.

(** ** The frame loop *)

Lemma run_app (es1 es2 : list Event) (w : World) :
  run w (es1 ++ es2) = run w es1 ≫= λ w1, run w1 es2.
Proof.
  revert w. induction es1 as [|e es1 IH]; intros w; simpl; [reflexivity|].
  destruct (step w e); simpl; [apply IH | reflexivity].
Qed.

Lemma tick_runs (id : nat) (t : Tick) (w : World) :
  loop_ready id w →
  ∃ w', run w (tickEvents id t) = Some w'
        ∧ loop_ready id w'
        ∧ framesSent w' = submitted [t] (framesSent w)
        ∧ callbacksFired w' = callbacksFired w
        ∧ connection w' = connection w
        ∧ timers w' = timers w.
Proof.
  intros (Hid & Hv & Hcv & [s Hs]).
  destruct w as [ps c v cv api sr fi tm n ls c2 g p k tb b64 l].
  simpl in Hid, Hv, Hcv, Hs. subst v cv api.
  unfold loop_ready, framesSent, callbacksFired.
  destruct t as [| |msg|blob base64]; simpl;
    rewrite (bool_decide_eq_true_2 _ Hid); simpl.
  - eexists; split; [reflexivity|]. simpl. eauto 10.
  - eexists; split; [reflexivity|]. simpl. eauto 10.
  - eexists; split; [reflexivity|]. simpl. eauto 10.
  - destruct s; (eexists; split; [reflexivity|]); simpl; eauto 10.
Qed.

Lemma ticks_run (id : nat) (ts : list Tick) (w : World) :
  loop_ready id w →
  ∃ w', run w (concat (map (tickEvents id) ts)) = Some w'
        ∧ loop_ready id w'
        ∧ framesSent w' = submitted ts (framesSent w)
        ∧ callbacksFired w' = callbacksFired w
        ∧ connection w' = connection w
        ∧ timers w' = timers w.
Proof.
  revert w. induction ts as [|t ts IH]; intros w Hready.
  - exists w. simpl. auto 10.
  - destruct (tick_runs id t w Hready) as (w1 & Hrun1 & Hready1 & Hs1 & Hc1 & Hk1 & Ht1).
    destruct (IH w1 Hready1) as (w' & Hrun & Hready' & Hs & Hc & Hk & Ht).
    exists w'. cbn [map concat]. rewrite run_app, Hrun1. simpl.
    split; [exact Hrun|]. split; [exact Hready'|].
    rewrite Hs, Hc, Hk, Ht, Hs1, Hc1, Hk1, Ht1.
    destruct t; simpl; auto.
Qed.

(** C5.  With the interval set and the elements and the client in place,
    any sequence of ticks runs to its end, whichever of them fail at
    capture, at encoding or at conversion: the frames submitted with
    [sendVideoFrame] are exactly those of the ticks that did not fail, in
    order; no tick invokes [handleError] or changes the connection state;
    and the interval is still set afterwards. *)
Theorem failed_tick_is_skipped (id : nat) (ts : list Tick) (w : World) :
  id ∈ timers w → videoRef w = true → canvasRef w = true → is_Some (liveApiRef w) →
  ∃ w', run w (concat (map (tickEvents id) ts)) = Some w'
        ∧ framesSent w' = submitted ts (framesSent w)
        ∧ callbacksFired w' = callbacksFired w
        ∧ connection w' = connection w
        ∧ timers w' = timers w.
Proof.
  intros Hid Hv Hcv Hs.
  destruct (ticks_run id ts w) as (w' & Hrun & _ & H); [repeat split; assumption|].
  exists w'. split; assumption.
Qed.

Lemma failed_tick_is_skipped_witness :
  ∃ w', run streaming
          (concat (map (tickEvents 1)
                     [Encoded [] "k-1"; EncodeFails; Encoded [] "k+1"; CaptureFails;
                      ConversionFails "too large"; Encoded [] "k+4"])) = Some w'
        ∧ framesSent w' =
            [CallSendVideoFrame "k+4"; CallSendVideoFrame "k+1"; CallSendVideoFrame "k-1"]
        ∧ callbacksFired w' = callbacksFired streaming
        ∧ connection w' = connection streaming
        ∧ timers w' = timers streaming.
Proof.
  apply (failed_tick_is_skipped 1
           [Encoded [] "k-1"; EncodeFails; Encoded [] "k+1"; CaptureFails;
            ConversionFails "too large"; Encoded [] "k+4"] streaming).
  - apply (bool_decide_unpack (1 ∈ timers streaming)). vm_compute. exact I.
  - vm_compute. reflexivity.
  - vm_compute. reflexivity.
  - vm_compute. eexists. reflexivity.
Defined.

(** ** Failures while starting *)

Lemma step_not_connected (w w' : World) (e : Event) :
  not_connected w → e ≠ ConnectSettled (Fulfilled ()) → step w e = Some w' →
  not_connected w'.
Proof.
  unfold not_connected. intros [Hc [s Hs]] He Hstep.
  destruct w as [ps c v cv api sr fi t n ls c2 g p k tb b64 l].
  simpl in Hc, Hs. subst api.
  destruct e as [| |r|r|r|id drawn|blob|r|m]; simpl in Hstep.
  - injection Hstep as <-. simpl. eauto.
  - injection Hstep as <-. unfold stopStream. destruct fi as [[|i]|], sr; simpl; eauto.
  - destruct g as [|g]; [discriminate|]. injection Hstep as <-.
    destruct r as [stream|msg]; simpl; [|eauto].
    destruct v; simpl; eauto.
  - destruct p as [|p]; [discriminate|]. injection Hstep as <-.
    destruct r as [[]|msg]; simpl; eauto.
  - destruct k as [|k]; [discriminate|]. injection Hstep as <-.
    destruct r as [[]|msg]; [contradiction He; reflexivity|].
    unfold startStream_settled; simpl. destruct s; simpl; eauto.
  - destruct (bool_decide (id ∈ t)); [|discriminate].
    injection Hstep as <-. unfold frameInterval; simpl.
    destruct v, drawn, cv; simpl; eauto.
  - destruct tb as [|tb]; [discriminate|].
    injection Hstep as <-. destruct blob; simpl; eauto.
  - destruct b64 as [|b64]; [discriminate|].
    injection Hstep as <-. destruct r as [base64|msg]; simpl; [|eauto].
    destruct s; simpl; eauto.
  - injection Hstep as <-.
    destruct s; simpl; eauto. destruct m; simpl; eauto.
Qed.

Lemma run_not_connected (es : list Event) (w w' : World) :
  not_connected w → Forall (λ e, e ≠ ConnectSettled (Fulfilled ())) es →
  run w es = Some w' → not_connected w'.
Proof.
  revert w. induction es as [|e es IH]; intros w Hn Hes Hrun; simpl in Hrun.
  - injection Hrun as <-. exact Hn.
  - destruct (step w e) as [w1|] eqn:Hstep; [|discriminate].
    apply Forall_cons in Hes as [He Hes].
    eauto using step_not_connected.
Qed.

(** C6.  Whatever the state of the component when [startStream] is called:
    when [getUserMedia] rejects, when [play()] rejects, or when [connect()]
    rejects, [startStream] invokes [handleError] with a reason that is the
    message of the failure when that is not empty, and 'Failed to access
    camera' when it is; the connection state then holds that reason with
    [isConnected] and [isStreaming] false; the client is left as it was by
    the first two and Closed by the third; and as long as no [connect()]
    has resolved, [isConnected] is false all the way. *)
Theorem startStream_failure_surfaces (w : World) (message reason : string) (stream : nat) :
  videoRef w = true →
  (message ≠ "" ∧ reason = message) ∨ (message = "" ∧ reason = "Failed to access camera") →
  (∃ w', run (startStream w) [GetUserMediaSettled (Rejected message)] = Some w'
         ∧ connection w' =
             {| isConnected := false; isStreaming := false; error := Some reason |}
         ∧ callbacksFired w' = CallHandleError reason :: callbacksFired w
         ∧ liveApiRef w' = liveApiRef w)
  ∧ (∃ w', run (startStream w)
             [GetUserMediaSettled (Fulfilled stream); PlaySettled (Rejected message)] = Some w'
         ∧ connection w' =
             {| isConnected := false; isStreaming := false; error := Some reason |}
         ∧ callbacksFired w' = CallHandleError reason :: callbacksFired w
         ∧ liveApiRef w' = liveApiRef w)
  ∧ (liveApiRef w = Some LiveApiService.Idle ∨ liveApiRef w = Some LiveApiService.Closed →
     ∃ w', run (startStream w)
             [GetUserMediaSettled (Fulfilled stream); PlaySettled (Fulfilled ());
              ConnectSettled (Rejected message)] = Some w'
         ∧ connection w' =
             {| isConnected := false; isStreaming := false; error := Some reason |}
         ∧ callbacksFired w' =
             CallHandleError reason :: CallHandleError message :: callbacksFired w
         ∧ liveApiRef w' = Some LiveApiService.Closed)
  ∧ (∀ (es : list Event) (w' : World),
       is_Some (liveApiRef w) →
       Forall (λ e, e ≠ ConnectSettled (Fulfilled ())) es →
       run (startStream w) es = Some w' →
       isConnected (connection w') = false).
Proof.
  intros Hv Hreason.
  assert (or_else message "Failed to access camera" = reason) as Hor.
  { destruct Hreason as [[Hne ->] | [-> ->]]; [|reflexivity].
    destruct message; [contradiction|reflexivity]. }
  clear Hreason.
  destruct w as [ps c v cv api sr fi t n ls c2 g p k tb b64 l]. simpl in Hv. subst v.
  unfold callbacksFired.
  split; [eexists; split; [run_eval|]; simpl; rewrite Hor; auto|].
  split; [eexists; split; [run_eval|]; simpl; rewrite Hor; auto|].
  split.
  - intros Hs. simpl in Hs.
    destruct Hs as [-> | ->]; (eexists; split; [run_eval|]); simpl; rewrite Hor; auto.
  - intros es w' Hs Hes Hrun.
    apply (run_not_connected es _ w') in Hrun as [Hc _]; [exact Hc| |exact Hes].
    split; [reflexivity | exact Hs].
Qed.

Lemma startStream_failure_surfaces_witness :
  (∃ w', run (startStream mounted) [GetUserMediaSettled (Rejected "permission denied")] = Some w'
         ∧ connection w' =
             {| isConnected := false; isStreaming := false;
                error := Some "permission denied" |}
         ∧ callbacksFired w' = CallHandleError "permission denied" :: callbacksFired mounted
         ∧ liveApiRef w' = liveApiRef mounted)
  ∧ (∃ w', run (startStream mounted) [GetUserMediaSettled (Rejected "")] = Some w'
         ∧ connection w' =
             {| isConnected := false; isStreaming := false;
                error := Some "Failed to access camera" |}
         ∧ callbacksFired w' =
             CallHandleError "Failed to access camera" :: callbacksFired mounted
         ∧ liveApiRef w' = liveApiRef mounted).
Proof.
  split.
  - apply (startStream_failure_surfaces mounted "permission denied" "permission denied" 7);
      [reflexivity|]. left. split; [discriminate | reflexivity].
  - apply (startStream_failure_surfaces mounted "" "Failed to access camera" 7);
      [reflexivity|]. right. split; reflexivity.
Defined.

Example startStream_failure_without_message :
  connection <$> run mounted [StartStream; GetUserMediaSettled (Rejected "")]
  = Some {| isConnected := false; isStreaming := false;
            error := Some "Failed to access camera" |}.
Proof. vm_compute. reflexivity. Qed.

Example connect_rejects :
  (λ w, (connection w, liveApiRef w, callbacksFired w, liveStreams w)) <$>
    run mounted [StartStream; GetUserMediaSettled (Fulfilled 7); PlaySettled (Fulfilled ());
                 ConnectSettled (Rejected "permission denied")]
  = Some ({| isConnected := false; isStreaming := false; error := Some "permission denied" |},
          Some LiveApiService.Closed,
          [CallHandleError "permission denied"; CallHandleError "permission denied"],
          {[ 7 ]}).
Proof. vm_compute. reflexivity. Qed.

(** ** [stopStream] twice *)

Lemma difference_twice_singleton (t : gset nat) (id : nat) :
  t ∖ {[ id ]} ∖ {[ id ]} = t ∖ {[ id ]}.
Proof. apply set_eq. intros x. rewrite !elem_of_difference. tauto. Qed.

Lemma disconnect_idempotent (s : LiveApiService.SessionState) :
  LiveApiService.disconnect (LiveApiService.disconnect s) = LiveApiService.disconnect s.
Proof. destruct s; reflexivity. Qed.

Lemma stopStream_stopStream (w : World) : stopStream (stopStream w) = stopStream w.
Proof.
  unfold stopStream.
  destruct w as [ps c v cv [s|] [sr|] [[|i]|] t n ls c2 g p k tb b64 l];
    world_unfold;
    rewrite ?difference_twice_singleton, ?disconnect_idempotent; reflexivity.
Qed.

Lemma cleanup_stopStream (w : World) : cleanup w = stopStream w.
Proof.
  unfold cleanup, stopStream.
  destruct w as [ps c v cv [s|] [sr|] [[|i]|] t n ls c2 g p k tb b64 l];
    world_unfold; rewrite ?disconnect_idempotent; reflexivity.
Qed.

(** C7.  From every state of the component and of the session client,
    [stopStream] yields the reset connection state and a client that is
    Closed (Idle when it was Idle), and fires no callback; a second
    [stopStream] right after the first changes nothing at all, and so does
    the second [disconnect()] of the unmount cleanup. *)
Theorem stopStream_idempotent (w : World) :
  connection (stopStream w) = {| isConnected := false; isStreaming := false; error := None |}
  ∧ liveApiRef (stopStream w) =
      match liveApiRef w with
      | Some LiveApiService.Idle => Some LiveApiService.Idle
      | Some _ => Some LiveApiService.Closed
      | None => None
      end
  ∧ callbacksFired (stopStream w) = callbacksFired w
  ∧ stopStream (stopStream w) = stopStream w
  ∧ cleanup w = stopStream w.
Proof.
  split; [reflexivity|].
  split.
  { unfold stopStream.
    destruct w as [ps c v cv [[]|] [sr|] [[|i]|] t n ls c2 g p k tb b64 l]; reflexivity. }
  split; [apply callbacksFired_stopStream|].
  split; [apply stopStream_stopStream | apply cleanup_stopStream].
Qed.

Example stop_twice_while_streaming :
  (λ w, (connection w, liveApiRef w, timers w, liveStreams w, callbacksFired w)) <$>
    run streaming [StopStream; StopStream]
  = Some (disconnected, Some LiveApiService.Closed, ∅, ∅, []).
Proof. vm_compute. reflexivity. Qed.

(** ** The constants of the capture pipeline *)

Lemma step_fixedConstants (w w' : World) (e : Event) :
  Forall fixedConstants (log w) → step w e = Some w' → Forall fixedConstants (log w').
Proof.
  intros Hlog Hstep.
  destruct w as [ps c v cv api sr fi t n ls c2 g p k tb b64 l]; simpl in Hlog.
  destruct e as [| |r|r|r|id drawn|blob|r|m]; simpl in Hstep.
  - injection Hstep as <-. simpl. constructor; [split; reflexivity | exact Hlog].
  - injection Hstep as <-. unfold stopStream. destruct fi as [[|i]|], sr, api; exact Hlog.
  - destruct g as [|g]; [discriminate|]. injection Hstep as <-.
    destruct r as [stream|msg]; simpl; [|constructor; [exact I | exact Hlog]].
    destruct v; simpl; [exact Hlog|].
    unfold startStream_connect, startStream_connected; simpl.
    destruct api as [s|]; simpl; [exact Hlog|].
    rewrite andb_false_r. exact Hlog.
  - destruct p as [|p]; [discriminate|]. injection Hstep as <-.
    destruct r as [[]|msg]; simpl; [|constructor; [exact I | exact Hlog]].
    unfold startStream_connect, startStream_connected; simpl.
    destruct api as [s|]; simpl; [exact Hlog|].
    destruct (cv && c2 && v); simpl; [constructor; [reflexivity | exact Hlog] | exact Hlog].
  - destruct k as [|k]; [discriminate|]. injection Hstep as <-.
    unfold startStream_settled, startStream_connected.
    destruct r as [[]|msg], api as [s|]; simpl.
    + destruct (cv && c2 && v); simpl;
        [constructor; [reflexivity | exact Hlog] | exact Hlog].
    + destruct (cv && c2 && v); simpl;
        [constructor; [reflexivity | exact Hlog] | exact Hlog].
    + destruct s; simpl; repeat (constructor; [exact I|]); exact Hlog.
    + constructor; [exact I | exact Hlog].
  - destruct (bool_decide (id ∈ t)); [|discriminate].
    injection Hstep as <-. unfold frameInterval; simpl.
    destruct v, api, drawn, cv; simpl; repeat (constructor; [split; reflexivity|]); exact Hlog.
  - destruct tb as [|tb]; [discriminate|].
    injection Hstep as <-. destruct blob; exact Hlog.
  - destruct b64 as [|b64]; [discriminate|].
    injection Hstep as <-. destruct r as [base64|msg]; simpl; [|exact Hlog].
    destruct api as [[]|]; simpl; repeat (constructor; [exact I|]); exact Hlog.
  - destruct api as [s|]; injection Hstep as <-; [|exact Hlog].
    destruct s; simpl; try exact Hlog.
    destruct m; simpl; constructor; [exact I | exact Hlog | exact I | exact Hlog].
Qed.

Lemma run_fixedConstants (es : list Event) (w w' : World) :
  Forall fixedConstants (log w) → run w es = Some w' → Forall fixedConstants (log w').
Proof.
  revert w. induction es as [|e es IH]; intros w Hlog Hrun; simpl in Hrun.
  - injection Hrun as <-. exact Hlog.
  - destruct (step w e) as [w1|] eqn:Hstep; [|discriminate].
    eauto using step_fixedConstants.
Qed.

(** C8.  [startStream] asks the camera for 320 by 240; once [connect()]
    has resolved, with the canvas, its context and the video in place, it
    sets an interval with a delay of 500 ms, which is then set; a tick that
    gets past line 73 draws the frame at 320 by 240 and asks [toBlob] for
    JPEG at quality 0.6.  And whatever happens to the component, no request
    it makes carries any other value: none of the four depends on the
    state or on what arrives. *)
Theorem capture_constants_fixed (w : World) :
  log (startStream w) = CallGetUserMedia 320 240 true :: log w
  ∧ (canvasRef w = true → context2d w = true → videoRef w = true →
     log (startStream_connected w) = CallSetInterval 500 (nextTimer w) :: log w
     ∧ frameIntervalRef (startStream_connected w) = Some (nextTimer w)
     ∧ nextTimer w ∈ timers (startStream_connected w))
  ∧ (videoRef w = true → is_Some (liveApiRef w) → canvasRef w = true →
     log (frameInterval true w)
     = CallToBlob "image/jpeg" 0.6 :: CallDrawImage 0 0 320 240 :: log w
     ∧ pendingToBlob (frameInterval true w) = S (pendingToBlob w))
  ∧ (∀ (es : list Event) (w' : World),
       Forall fixedConstants (log w) → run w es = Some w' →
       Forall fixedConstants (log w')).
Proof.
  split; [reflexivity|].
  destruct w as [ps c v cv api sr fi t n ls c2 g p k tb b64 l].
  split; [|split].
  - simpl. intros -> -> ->. unfold startStream_connected. simpl.
    split; [reflexivity|]. split; [reflexivity|].
    apply elem_of_union. left. apply elem_of_singleton. reflexivity.
  - simpl. intros -> [s ->] ->. unfold frameInterval. simpl.
    split; reflexivity.
  - intros es w'. apply run_fixedConstants.
Qed.

Lemma capture_constants_fixed_witness :
  log (frameInterval true streaming)
  = CallToBlob "image/jpeg" 0.6 :: CallDrawImage 0 0 320 240 :: log streaming
  ∧ pendingToBlob (frameInterval true streaming) = S (pendingToBlob streaming).
Proof.
  apply (proj1 (proj2 (proj2 (capture_constants_fixed streaming)))).
  - vm_compute. reflexivity.
  - vm_compute. eexists. reflexivity.
  - vm_compute. reflexivity.
Defined.

Example log_of_a_session :
  log streaming
  = [CallToBlob "image/jpeg" 0.6; CallDrawImage 0 0 320 240; CallSetInterval 500 1;
     CallGetUserMedia 320 240 true].
Proof. vm_compute. reflexivity. Qed.

(** ** What [handleError] leaves alone *)

Lemma interval_cleared_cannot_fire (w : World) (id : nat) (drawn : bool) :
  id ∉ timers w → step w (IntervalFires id drawn) = None.
Proof. intros Hid. simpl. rewrite (bool_decide_eq_false_2 _ Hid). reflexivity. Qed.

Lemma timers_stopStream (w : World) :
  timers (stopStream w) =
    match frameIntervalRef w with
    | Some (S i) => timers w ∖ {[ S i ]}
    | _ => timers w
    end.
Proof.
  unfold stopStream.
  destruct w as [ps c v cv [s|] [sr|] [[|i]|] t n ls c2 g p k tb b64 l]; reflexivity.
Qed.

(** C9.  For every state and every reason, [handleError] sets the three
    fields of the connection state ([error] to the reason, [isConnected]
    and [isStreaming] to false) and notes the call; the particle state, the
    refs, the interval and everything else are as before.  So the ticks of
    an interval that was set keep running after it and keep calling
    [sendVideoFrame]; after [stopStream] the interval of
    [frameIntervalRef] cannot fire any more. *)
Theorem handleError_touches_connection_only (reason : string) (w : World) :
  connection (handleError reason w) =
    {| isConnected := false; isStreaming := false; error := Some reason |}
  ∧ same_but_connection w (handleError reason w)
  ∧ log (handleError reason w) = CallHandleError reason :: log w
  ∧ (∀ (id : nat) (ts : list Tick),
       id ∈ timers w → videoRef w = true → canvasRef w = true → is_Some (liveApiRef w) →
       ∃ w', run (handleError reason w) (concat (map (tickEvents id) ts)) = Some w'
             ∧ framesSent w' = submitted ts (framesSent w)
             ∧ timers w' = timers w)
  ∧ match frameIntervalRef w with
    | Some (S i) =>
        ∀ drawn, step (stopStream (handleError reason w)) (IntervalFires (S i) drawn) = None
    | _ => True
    end.
Proof.
  split; [reflexivity|].
  split; [unfold same_but_connection; repeat split; reflexivity|].
  split; [reflexivity|].
  split.
  - intros id ts Hid Hv Hcv Hs.
    destruct (ticks_run id ts (handleError reason w))
      as (w' & Hrun & _ & Hsent & _ & _ & Ht); [repeat split; assumption|].
    exists w'. split; [exact Hrun|]. split; [exact Hsent | exact Ht].
  - destruct (frameIntervalRef w) as [[|i]|] eqn:Hfi; try exact I.
    intros drawn. apply interval_cleared_cannot_fire.
    rewrite timers_stopStream.
    change (frameIntervalRef (handleError reason w)) with (frameIntervalRef w).
    rewrite Hfi. apply not_elem_of_cleared.
Qed.

Lemma handleError_touches_connection_only_witness :
  ∃ w', run (handleError "rate limited" streaming)
          (concat (map (tickEvents 1) [Encoded [] "AAAA"; EncodeFails; Encoded [] "BBBB"]))
        = Some w'
        ∧ framesSent w' = [CallSendVideoFrame "BBBB"; CallSendVideoFrame "AAAA"]
        ∧ timers w' = timers streaming.
Proof.
  apply (proj1 (proj2 (proj2 (proj2
           (handleError_touches_connection_only "rate limited" streaming)))) 1
           [Encoded [] "AAAA"; EncodeFails; Encoded [] "BBBB"]).
  - apply (bool_decide_unpack (1 ∈ timers streaming)). vm_compute. exact I.
  - vm_compute. reflexivity.
  - vm_compute. reflexivity.
  - vm_compute. eexists. reflexivity.
Defined.

Example frames_after_error_are_dropped :
  (λ w, (connection w, liveApiRef w, log w)) <$>
    run streaming (Inbound (LiveApiService.Error "rate limited")
                     :: [ToBlobCalls (Some []); Base64Settled (Fulfilled "AAAA")])
  = Some ({| isConnected := false; isStreaming := false; error := Some "rate limited" |},
          Some LiveApiService.Closed,
          [CallSendVideoFrame "AAAA"; CallHandleError "rate limited";
           CallToBlob "image/jpeg" 0.6; CallDrawImage 0 0 320 240; CallSetInterval 500 1;
           CallGetUserMedia 320 240 true]).
Proof. vm_compute. reflexivity. Qed.

(** ** The particle state across sessions *)

Lemma step_particleState (w w' : World) (e : Event) :
  isStateUpdate e = false → step w e = Some w' → particleState w' = particleState w.
Proof.
  intros He Hstep.
  destruct w as [ps c v cv api sr fi t n ls c2 g p k tb b64 l].
  destruct e as [| |r|r|r|id drawn|blob|r|m]; simpl in Hstep.
  - injection Hstep as <-. reflexivity.
  - injection Hstep as <-. unfold stopStream. destruct fi as [[|i]|], sr, api; reflexivity.
  - destruct g as [|g]; [discriminate|]. injection Hstep as <-.
    destruct r as [stream|msg]; simpl; [|reflexivity].
    destruct v; simpl; [reflexivity|].
    unfold startStream_connect, startStream_connected; simpl.
    destruct api as [s|]; simpl; [reflexivity|].
    rewrite andb_false_r. reflexivity.
  - destruct p as [|p]; [discriminate|]. injection Hstep as <-.
    destruct r as [[]|msg]; simpl; [|reflexivity].
    unfold startStream_connect, startStream_connected; simpl.
    destruct api as [s|]; simpl; [reflexivity|].
    destruct (cv && c2 && v); reflexivity.
  - destruct k as [|k]; [discriminate|]. injection Hstep as <-.
    unfold startStream_settled, startStream_connected.
    destruct r as [[]|msg], api as [s|]; simpl.
    + destruct (cv && c2 && v); reflexivity.
    + destruct (cv && c2 && v); reflexivity.
    + destruct s; reflexivity.
    + reflexivity.
  - destruct (bool_decide (id ∈ t)); [|discriminate].
    injection Hstep as <-. unfold frameInterval; simpl.
    destruct v, api, drawn, cv; reflexivity.
  - destruct tb as [|tb]; [discriminate|].
    injection Hstep as <-. destruct blob; reflexivity.
  - destruct b64 as [|b64]; [discriminate|].
    injection Hstep as <-. destruct r as [base64|msg]; simpl; [|reflexivity].
    destruct api as [[]|]; reflexivity.
  - destruct api as [s|]; injection Hstep as <-; [|reflexivity].
    destruct m as [fields|reason]; [discriminate He|].
    destruct s; reflexivity.
Qed.

Lemma run_particleState (es : list Event) (w w' : World) :
  Forall (λ e, isStateUpdate e = false) es → run w es = Some w' →
  particleState w' = particleState w.
Proof.
  revert w. induction es as [|e es IH]; intros w Hes Hrun; simpl in Hrun.
  - injection Hrun as <-. reflexivity.
  - destruct (step w e) as [w1|] eqn:Hstep; [|discriminate].
    apply Forall_cons in Hes as [He Hes].
    rewrite (IH w1 Hes Hrun). exact (step_particleState w w1 e He Hstep).
Qed.

(** C10.  Whatever the particle state is when [stopStream] is called,
    it is the same afterwards: nothing resets it to [INITIAL_STATE].  And
    whatever happens next that is not the delivery of a state update
    (stopping, starting again, promises settling, ticks, error messages)
    leaves it the same as well. *)
Theorem stopStream_keeps_particleState (w : World) :
  particleState (stopStream w) = particleState w
  ∧ ∀ (es : list Event) (w' : World),
      Forall (λ e, isStateUpdate e = false) es → run w es = Some w' →
      particleState w' = particleState w.
Proof.
  split.
  - unfold stopStream.
    destruct w as [ps c v cv [s|] [sr|] [[|i]|] t n ls c2 g p k tb b64 l]; reflexivity.
  - intros es w'. apply run_particleState.
Qed.

Lemma stopStream_keeps_particleState_witness :
  particleState (stopStream gestured) !! "shape" = Some (JStr "heart")
  ∧ ∃ w', run gestured
            [StopStream; StartStream; GetUserMediaSettled (Fulfilled 8);
             PlaySettled (Fulfilled ()); ConnectSettled (Fulfilled ())] = Some w'
          ∧ particleState w' = particleState gestured.
Proof.
  split.
  - rewrite (proj1 (stopStream_keeps_particleState gestured)). vm_compute. reflexivity.
  - eexists. split; [vm_compute; reflexivity|].
    apply (proj2 (stopStream_keeps_particleState gestured)
             [StopStream; StartStream; GetUserMediaSettled (Fulfilled 8);
              PlaySettled (Fulfilled ()); ConnectSettled (Fulfilled ())]).
    + repeat constructor.
    + vm_compute. reflexivity.
Defined.

(** * Further properties of the component *)

(** ** The algebra of partial updates *)

Lemma foldl_spread2_lookup (us : list JsObject) (acc : JsObject) (k : string) :
  foldl spread2 acc us !! k =
    match last_specified k us with
    | Some v => Some v
    | None => acc !! k
    end.
Proof.
  revert acc. induction us as [|u rest IH]; intros acc; [reflexivity|].
  cbn [foldl last_specified]. rewrite IH.
  destruct (last_specified k rest); [reflexivity|].
  apply lookup_spread2.
Qed.

(** X1.  Passing the updates [us] one after the other to
    [handleStateUpdate] gives the particle state that one call with all of
    them spread into a single object gives. *)
Theorem applyUpdates_batched (us : list JsObject) (w : World) :
  particleState (applyUpdates us w) = particleState (handleStateUpdate (mergeAll us) w).
Proof.
  apply map_eq. intros k.
  rewrite applyUpdates_lookup, particleState_handleStateUpdate.
  change (mergeAll us ∪ particleState w) with (spread2 (particleState w) (mergeAll us)).
  rewrite lookup_spread2. unfold mergeAll. rewrite foldl_spread2_lookup.
  rewrite lookup_empty. destruct (last_specified k us); reflexivity.
Qed.

(** X2.  An update with no key leaves the particle state as it is; the
    same update a second time changes nothing more; and the keys after an
    update are exactly the keys before together with the keys of the
    update, so a key that is not one of the five of [INITIAL_STATE] is
    kept as it comes. *)
Theorem handleStateUpdate_edges (u : JsObject) (w : World) :
  particleState (handleStateUpdate ∅ w) = particleState w
  ∧ particleState (handleStateUpdate u (handleStateUpdate u w))
    = particleState (handleStateUpdate u w)
  ∧ dom (particleState (handleStateUpdate u w)) = dom u ∪ dom (particleState w).
Proof.
  rewrite !particleState_handleStateUpdate.
  split; [apply (left_id_L ∅ (∪))|].
  split; [|apply dom_union_L].
  rewrite (assoc_L (∪)). f_equal. apply (idemp_L (∪)).
Qed.

(** X3.  Two updates that share no key can be applied in either order. *)
Theorem handleStateUpdate_disjoint_commute (u1 u2 : JsObject) (w : World) :
  dom u1 ## dom u2 →
  particleState (handleStateUpdate u2 (handleStateUpdate u1 w))
  = particleState (handleStateUpdate u1 (handleStateUpdate u2 w)).
Proof.
  intros Hdisj. rewrite !particleState_handleStateUpdate.
  rewrite !(assoc_L (∪)). f_equal.
  apply map_union_comm. apply map_disjoint_dom. symmetry. exact Hdisj.
Qed.

Lemma handleStateUpdate_disjoint_commute_witness :
  particleState (handleStateUpdate {[ "speed" := JNum 2 ]}
                   (handleStateUpdate {[ "shape" := JStr "heart" ]} mounted))
  = particleState (handleStateUpdate {[ "shape" := JStr "heart" ]}
                     (handleStateUpdate {[ "speed" := JNum 2 ]} mounted)).
Proof.
  apply (handleStateUpdate_disjoint_commute
           {[ "shape" := JStr "heart" ]} {[ "speed" := JNum 2 ]} mounted).
  rewrite !dom_singleton_L. apply disjoint_singleton_l.
  rewrite elem_of_singleton. discriminate.
Defined.

Example shared_key_does_not_commute :
  particleState (handleStateUpdate {[ "shape" := JStr "helix" ]}
                   (handleStateUpdate {[ "shape" := JStr "heart" ]} mounted)) !! "shape"
  ≠ particleState (handleStateUpdate {[ "shape" := JStr "heart" ]}
                     (handleStateUpdate {[ "shape" := JStr "helix" ]} mounted)) !! "shape".
Proof. vm_compute. discriminate. Qed.

(** X4.  However many updates are passed to [handleStateUpdate], the
    connection state, the refs, the intervals, the streams and the work in
    flight are as before: only the particle state changes, and each call is
    noted once, in order. *)
Theorem applyUpdates_touches_particleState_only (us : list JsObject) (w : World) :
  same_but_particleState w (applyUpdates us w)
  ∧ callbacksFired (applyUpdates us w)
    = (rev (map CallHandleStateUpdate us) ++ callbacksFired w)%list.
Proof.
  revert w. induction us as [|u rest IH]; intros w.
  - split; [unfold same_but_particleState; repeat split; reflexivity | reflexivity].
  - change (applyUpdates (u :: rest) w) with (applyUpdates rest (handleStateUpdate u w)).
    destruct (IH (handleStateUpdate u w)) as [Hsame Hcb]. split.
    + unfold same_but_particleState in *. exact Hsame.
    + rewrite Hcb. cbn [map rev]. rewrite <- app_assoc. reflexivity.
Qed.

(** ** Interval handles *)

(** What one event can do to the intervals: nothing, set a fresh one and
    hold it, or (for [stopStream]) clear the one held. *)
Lemma step_timers (w w' : World) (e : Event) :
  step w e = Some w' →
  (timers w' = timers w ∧ nextTimer w' = nextTimer w
   ∧ frameIntervalRef w' = frameIntervalRef w)
  ∨ (timers w' = {[ nextTimer w ]} ∪ timers w ∧ nextTimer w' = S (nextTimer w)
     ∧ frameIntervalRef w' = Some (nextTimer w))
  ∨ (timers w' = match frameIntervalRef w with
                 | Some (S i) => timers w ∖ {[ S i ]}
                 | _ => timers w
                 end
     ∧ nextTimer w' = nextTimer w ∧ frameIntervalRef w' = frameIntervalRef w).
Proof.
  intros Hstep.
  destruct w as [ps c v cv api sr fi t n ls c2 g p k tb b64 l].
  destruct e as [| |r|r|r|id drawn|blob|r|m]; simpl in Hstep.
  - injection Hstep as <-. left. auto.
  - injection Hstep as <-. right. right. unfold stopStream.
    destruct fi as [[|i]|], sr, api; auto.
  - destruct g as [|g]; [discriminate|]. injection Hstep as <-.
    destruct r as [stream|msg]; simpl; [|left; auto].
    destruct v; simpl; [left; auto|].
    unfold startStream_connect, startStream_connected; simpl.
    destruct api as [s|]; simpl; [left; auto|].
    rewrite andb_false_r. left. auto.
  - destruct p as [|p]; [discriminate|]. injection Hstep as <-.
    destruct r as [[]|msg]; simpl; [|left; auto].
    unfold startStream_connect, startStream_connected; simpl.
    destruct api as [s|]; simpl; [left; auto|].
    destruct (cv && c2 && v); simpl; auto.
  - destruct k as [|k]; [discriminate|]. injection Hstep as <-.
    unfold startStream_settled, startStream_connected.
    destruct r as [[]|msg], api as [s|]; simpl.
    + destruct (cv && c2 && v); simpl; auto.
    + destruct (cv && c2 && v); simpl; auto.
    + destruct s; left; auto.
    + left. auto.
  - destruct (bool_decide (id ∈ t)); [|discriminate].
    injection Hstep as <-. unfold frameInterval; simpl.
    destruct v, api, drawn, cv; left; auto.
  - destruct tb as [|tb]; [discriminate|].
    injection Hstep as <-. destruct blob; left; auto.
  - destruct b64 as [|b64]; [discriminate|].
    injection Hstep as <-. destruct r as [base64|msg]; simpl; [|left; auto].
    destruct api as [[]|]; left; auto.
  - destruct api as [s|]; injection Hstep as <-; [|left; auto].
    destruct s; simpl; try (left; auto; fail).
    destruct m; left; auto.
Qed.

Lemma step_handles_fresh (w w' : World) (e : Event) :
  handles_fresh w → step w e = Some w' → handles_fresh w'.
Proof.
  intros (Hn & Ht & Hf) Hstep.
  destruct (step_timers w w' e Hstep)
    as [(Et & En & Ef) | [(Et & En & Ef) | (Et & En & Ef)]];
    (split; [|split]); try intros id; rewrite ?Et, ?En, ?Ef.
  - exact Hn.
  - apply Ht.
  - apply Hf.
  - lia.
  - rewrite elem_of_union, elem_of_singleton. intros [-> | Hid]; [lia|].
    specialize (Ht id Hid). lia.
  - intros [= <-]. lia.
  - exact Hn.
  - intros Hid. apply Ht.
    destruct (frameIntervalRef w) as [[|i]|]; [exact Hid | | exact Hid].
    apply elem_of_difference in Hid as [Hid _]. exact Hid.
  - apply Hf.
Qed.

Lemma run_handles_fresh (es : list Event) (w w' : World) :
  handles_fresh w → run w es = Some w' → handles_fresh w'.
Proof.
  revert w. induction es as [|e es IH]; intros w Hinv Hrun; simpl in Hrun.
  - injection Hrun as <-. exact Hinv.
  - destruct (step w e) as [w1|] eqn:Hstep; [|discriminate].
    eauto using step_handles_fresh.
Qed.

Lemma handles_fresh_mounted : handles_fresh mounted.
Proof.
  split; [simpl; lia|]. split; intros id; simpl.
  - intros Hid. apply elem_of_empty in Hid. contradiction.
  - discriminate.
Qed.

(** X5.  In every state the mounted component reaches, the handle that
    [frameIntervalRef] holds is not zero, so the truthiness test of line
    91 does not pass over it, and after [stopStream] that interval is not
    set. *)
Theorem stopStream_clears_held_interval (es : list Event) (w : World) (id : nat) :
  run mounted es = Some w → frameIntervalRef w = Some id →
  id ≠ 0 ∧ id ∉ timers (stopStream w).
Proof.
  intros Hrun Hfi.
  destruct (run_handles_fresh es mounted w handles_fresh_mounted Hrun) as (_ & _ & Hf).
  specialize (Hf id Hfi).
  split; [lia|].
  rewrite timers_stopStream, Hfi.
  destruct id as [|i]; [lia|]. apply not_elem_of_cleared.
Qed.

Lemma stopStream_clears_held_interval_witness :
  1 ≠ 0 ∧ 1 ∉ timers (stopStream streaming).
Proof.
  apply (stopStream_clears_held_interval
           [StartStream; GetUserMediaSettled (Fulfilled 7); PlaySettled (Fulfilled ());
            ConnectSettled (Fulfilled ()); IntervalFires 1 true] streaming 1);
    vm_compute; reflexivity.
Defined.

Lemma step_orphaned (w w' : World) (e : Event) (id : nat) :
  handles_fresh w → orphaned id w → step w e = Some w' → orphaned id w'.
Proof.
  intros (Hn & Ht & Hf) [Hid Hfi] Hstep.
  destruct (step_timers w w' e Hstep)
    as [(Et & En & Ef) | [(Et & En & Ef) | (Et & En & Ef)]];
    split; rewrite ?Et, ?Ef; try assumption.
  - apply elem_of_union. right. exact Hid.
  - intros [= <-]. specialize (Ht _ Hid). lia.
  - destruct (frameIntervalRef w) as [[|i]|]; try exact Hid.
    apply elem_of_difference. split; [exact Hid|].
    rewrite elem_of_singleton. intros ->. apply Hfi. reflexivity.
Qed.

Lemma run_orphaned (es : list Event) (w w' : World) (id : nat) :
  handles_fresh w → orphaned id w → run w es = Some w' → orphaned id w'.
Proof.
  revert w. induction es as [|e es IH]; intros w Hfresh Horph Hrun; simpl in Hrun.
  - injection Hrun as <-. exact Horph.
  - destruct (step w e) as [w1|] eqn:Hstep; [|discriminate].
    eauto using step_orphaned, step_handles_fresh.
Qed.

(** X6.  An interval that is set while [frameIntervalRef] holds another
    handle (or none) stays set whatever happens afterwards: no
    [stopStream] clears it, and [frameIntervalRef] never holds it
    again. *)
Theorem orphaned_interval_is_never_cleared
    (es1 es2 : list Event) (w w' : World) (id : nat) :
  run mounted es1 = Some w →
  id ∈ timers w → frameIntervalRef w ≠ Some id →
  run w es2 = Some w' →
  id ∈ timers w' ∧ frameIntervalRef w' ≠ Some id.
Proof.
  intros Hreach Hid Hfi Hrun.
  apply (run_orphaned es2 w w' id); [|split; assumption|exact Hrun].
  exact (run_handles_fresh es1 mounted w handles_fresh_mounted Hreach).
Qed.

Lemma orphaned_interval_is_never_cleared_witness :
  ∃ w', run restarted [StopStream; StartStream; StopStream] = Some w'
        ∧ 1 ∈ timers w' ∧ frameIntervalRef w' ≠ Some 1.
Proof.
  eexists. split; [vm_compute; reflexivity|].
  apply (orphaned_interval_is_never_cleared
           [StartStream; GetUserMediaSettled (Fulfilled 7); PlaySettled (Fulfilled ());
            ConnectSettled (Fulfilled ()); IntervalFires 1 true;
            Inbound (LiveApiService.Error "rate limited"); StartStream;
            GetUserMediaSettled (Fulfilled 8); PlaySettled (Fulfilled ());
            ConnectSettled (Fulfilled ())]
           [StopStream; StartStream; StopStream] restarted).
  - vm_compute. reflexivity.
  - apply (bool_decide_unpack (1 ∈ timers restarted)). vm_compute. exact I.
  - vm_compute. discriminate.
  - vm_compute. reflexivity.
Defined.

(** Evaluates a run over a world given by its fields, leaving the set
    operations, with their instances, and the choice of message as they
    are. *)
Ltac run_sets :=
  cbv -[union singleton difference or_else gset gset_union gset_singleton gset_difference
        Nat.eq_dec nat_countable];
  reflexivity.

(** Reads the fields of a world given by its fields, and of what it
    renders. *)
Ltac fields :=
  cbn [particleState connection videoRef canvasRef liveApiRef streamRef frameIntervalRef
       timers nextTimer liveStreams context2d log render startButton stopButton
       errorBanner liveBadge isConnected isStreaming error negb].

(** X7.  When an error message closes a session that is streaming, the
    Start button comes back while the interval stays set; starting again
    from there sets a second interval and makes [frameIntervalRef] hold
    the new handle, so that two intervals fire, and a [stopStream] after
    that leaves the first one set. *)
Theorem restart_after_error_orphans_interval
    (w : World) (id stream : nat) (reason : string) :
  handles_fresh w →
  frameIntervalRef w = Some id → id ∈ timers w →
  videoRef w = true → canvasRef w = true → context2d w = true →
  liveApiRef w = Some LiveApiService.Active →
  (∃ w1, run w [Inbound (LiveApiService.Error reason)] = Some w1
         ∧ startButton (render w1) = true ∧ id ∈ timers w1)
  ∧ ∃ w', run w [Inbound (LiveApiService.Error reason); StartStream;
                 GetUserMediaSettled (Fulfilled stream); PlaySettled (Fulfilled ());
                 ConnectSettled (Fulfilled ())] = Some w'
          ∧ frameIntervalRef w' = Some (nextTimer w)
          ∧ nextTimer w ≠ id
          ∧ id ∈ timers w' ∧ nextTimer w ∈ timers w'
          ∧ id ∈ timers (stopStream w').
Proof.
  intros (Hn & Ht & _) Hfi Hid Hv Hcv Hc2 Hapi.
  specialize (Ht id Hid).
  destruct w as [ps c v cv api sr fi t n ls c2 g p k tb b64 l].
  simpl in Hn, Ht, Hfi, Hid, Hv, Hcv, Hc2, Hapi. subst v cv c2 api fi.
  assert (n ≠ id) as Hne by lia.
  split.
  - eexists. split; [run_sets|]. fields. auto.
  - eexists. split; [run_sets|]. fields.
    split; [reflexivity|]. split; [exact Hne|].
    split; [apply elem_of_union; right; exact Hid|].
    split; [apply elem_of_union; left; apply elem_of_singleton; reflexivity|].
    rewrite timers_stopStream. fields.
    destruct n as [|n']; [lia|].
    apply elem_of_difference. split; [apply elem_of_union; right; exact Hid|].
    rewrite elem_of_singleton. intros ->. apply Hne. reflexivity.
Qed.

Lemma restart_after_error_orphans_interval_witness :
  ∃ w', run streaming [Inbound (LiveApiService.Error "rate limited"); StartStream;
                       GetUserMediaSettled (Fulfilled 8); PlaySettled (Fulfilled ());
                       ConnectSettled (Fulfilled ())] = Some w'
        ∧ frameIntervalRef w' = Some (nextTimer streaming)
        ∧ nextTimer streaming ≠ 1
        ∧ 1 ∈ timers w' ∧ nextTimer streaming ∈ timers w'
        ∧ 1 ∈ timers (stopStream w').
Proof.
  apply (restart_after_error_orphans_interval streaming 1 8 "rate limited").
  - apply (run_handles_fresh
             [StartStream; GetUserMediaSettled (Fulfilled 7); PlaySettled (Fulfilled ());
              ConnectSettled (Fulfilled ()); IntervalFires 1 true] mounted);
      [apply handles_fresh_mounted | vm_compute; reflexivity].
  - vm_compute. reflexivity.
  - apply (bool_decide_unpack (1 ∈ timers streaming)). vm_compute. exact I.
  - vm_compute. reflexivity.
  - vm_compute. reflexivity.
  - vm_compute. reflexivity.
  - vm_compute. reflexivity.
Defined.

(** ** Media streams *)

(** X8.  When [play()] or [connect()] rejects after [getUserMedia] has
    delivered a stream, the [catch] block reports the failure and nothing
    stops the stream: its tracks are running, [streamRef] holds it, and
    the Stop button is not rendered. *)
Theorem failed_start_leaves_camera_on (w : World) (stream : nat) (message : string) :
  videoRef w = true →
  (∃ w', run (startStream w)
           [GetUserMediaSettled (Fulfilled stream); PlaySettled (Rejected message)] = Some w'
         ∧ stream ∈ liveStreams w' ∧ streamRef w' = Some stream
         ∧ stopButton (render w') = false)
  ∧ (liveApiRef w = Some LiveApiService.Idle ∨ liveApiRef w = Some LiveApiService.Closed →
     ∃ w', run (startStream w)
             [GetUserMediaSettled (Fulfilled stream); PlaySettled (Fulfilled ());
              ConnectSettled (Rejected message)] = Some w'
           ∧ stream ∈ liveStreams w' ∧ streamRef w' = Some stream
           ∧ stopButton (render w') = false).
Proof.
  intros Hv.
  destruct w as [ps c v cv api sr fi t n ls c2 g p k tb b64 l]. simpl in Hv. subst v.
  split.
  - eexists. split; [run_sets|]. fields.
    split; [apply elem_of_union; left; apply elem_of_singleton; reflexivity|]. auto.
  - intros Hs. simpl in Hs.
    destruct Hs as [-> | ->]; (eexists; split; [run_sets|]); fields;
      (split; [apply elem_of_union; left; apply elem_of_singleton; reflexivity|]); auto.
Qed.

Lemma failed_start_leaves_camera_on_witness :
  ∃ w', run (startStream mounted)
          [GetUserMediaSettled (Fulfilled 7); PlaySettled (Fulfilled ());
           ConnectSettled (Rejected "permission denied")] = Some w'
        ∧ 7 ∈ liveStreams w' ∧ streamRef w' = Some 7
        ∧ stopButton (render w') = false.
Proof.
  apply (proj2 (failed_start_leaves_camera_on mounted 7 "permission denied" eq_refl)).
  left. reflexivity.
Defined.

(** What one event can do to the streams: nothing, deliver a stream that
    [streamRef] then holds, or (for [stopStream]) stop the one held. *)
Lemma step_streams (w w' : World) (e : Event) :
  step w e = Some w' →
  (liveStreams w' = liveStreams w ∧ streamRef w' = streamRef w)
  ∨ (∃ s, e = GetUserMediaSettled (Fulfilled s)
          ∧ liveStreams w' = {[ s ]} ∪ liveStreams w ∧ streamRef w' = Some s)
  ∨ (liveStreams w' = match streamRef w with
                      | Some s => liveStreams w ∖ {[ s ]}
                      | None => liveStreams w
                      end
     ∧ streamRef w' = streamRef w).
Proof.
  intros Hstep.
  destruct w as [ps c v cv api sr fi t n ls c2 g p k tb b64 l].
  destruct e as [| |r|r|r|id drawn|blob|r|m]; simpl in Hstep.
  - injection Hstep as <-. left. auto.
  - injection Hstep as <-. right. right. unfold stopStream.
    destruct fi as [[|i]|], sr, api; auto.
  - destruct g as [|g]; [discriminate|]. injection Hstep as <-.
    destruct r as [stream|msg]; simpl; [|left; auto].
    right. left. exists stream. split; [reflexivity|].
    destruct v; simpl; [auto|].
    unfold startStream_connect, startStream_connected; simpl.
    destruct api as [s|]; simpl; [auto|].
    rewrite andb_false_r. auto.
  - destruct p as [|p]; [discriminate|]. injection Hstep as <-.
    destruct r as [[]|msg]; simpl; [|left; auto].
    unfold startStream_connect, startStream_connected; simpl.
    destruct api as [s|]; simpl; [left; auto|].
    destruct (cv && c2 && v); left; auto.
  - destruct k as [|k]; [discriminate|]. injection Hstep as <-.
    unfold startStream_settled, startStream_connected.
    destruct r as [[]|msg], api as [s|]; simpl.
    + destruct (cv && c2 && v); left; auto.
    + destruct (cv && c2 && v); left; auto.
    + destruct s; left; auto.
    + left. auto.
  - destruct (bool_decide (id ∈ t)); [|discriminate].
    injection Hstep as <-. unfold frameInterval; simpl.
    destruct v, api, drawn, cv; left; auto.
  - destruct tb as [|tb]; [discriminate|].
    injection Hstep as <-. destruct blob; left; auto.
  - destruct b64 as [|b64]; [discriminate|].
    injection Hstep as <-. destruct r as [base64|msg]; simpl; [|left; auto].
    destruct api as [[]|]; left; auto.
  - destruct api as [s|]; injection Hstep as <-; [|left; auto].
    destruct s; simpl; try solve [left; auto].
    destruct m; left; auto.
Qed.

Lemma step_unheld (w w' : World) (e : Event) (s : nat) :
  unheld s w → e ≠ GetUserMediaSettled (Fulfilled s) → step w e = Some w' → unheld s w'.
Proof.
  intros [Hs Hsr] He Hstep.
  destruct (step_streams w w' e Hstep) as [(El & Er) | [(s' & -> & El & Er) | (El & Er)]];
    split; rewrite ?El, ?Er; try assumption.
  - apply elem_of_union. right. exact Hs.
  - intros [= ->]. apply He. reflexivity.
  - destruct (streamRef w) as [s'|]; [|exact Hs].
    apply elem_of_difference. split; [exact Hs|].
    rewrite elem_of_singleton. intros ->. apply Hsr. reflexivity.
Qed.

(** X9.  A stream whose tracks are running while [streamRef] holds
    another stream (or none) keeps running whatever happens afterwards, as
    long as [getUserMedia] does not deliver that same stream again: no
    [stopStream] stops its tracks. *)
Theorem unheld_stream_is_never_stopped (es : list Event) (w w' : World) (s : nat) :
  s ∈ liveStreams w → streamRef w ≠ Some s →
  Forall (λ e, e ≠ GetUserMediaSettled (Fulfilled s)) es →
  run w es = Some w' →
  s ∈ liveStreams w' ∧ streamRef w' ≠ Some s.
Proof.
  intros Hs Hsr. assert (unheld s w) as Hun by (split; assumption). clear Hs Hsr.
  revert w Hun. induction es as [|e es IH]; intros w Hun Hes Hrun; simpl in Hrun.
  - injection Hrun as <-. exact Hun.
  - destruct (step w e) as [w1|] eqn:Hstep; [|discriminate].
    apply Forall_cons in Hes as [He Hes].
    apply (IH w1); [|exact Hes|exact Hrun].
    exact (step_unheld w w1 e s Hun He Hstep).
Qed.

Lemma unheld_stream_is_never_stopped_witness :
  ∃ w', run restarted [StopStream; StartStream; StopStream] = Some w'
        ∧ 7 ∈ liveStreams w' ∧ streamRef w' ≠ Some 7.
Proof.
  eexists. split; [vm_compute; reflexivity|].
  apply (unheld_stream_is_never_stopped [StopStream; StartStream; StopStream] restarted).
  - apply (bool_decide_unpack (7 ∈ liveStreams restarted)). vm_compute. exact I.
  - vm_compute. discriminate.
  - repeat constructor; discriminate.
  - vm_compute. reflexivity.
Defined.

(** ** What is shown *)

(** X10.  After a failure caught by [startStream] the error banner is
    always rendered, with a text that is not empty; after [handleError]
    in general it is rendered exactly when the reason is not the empty
    string.  In both cases the Start button is rendered and the "Live
    Connected" badge is not. *)
Theorem error_banner_after_failure (message reason : string) (w : World) :
  errorBanner (render (startStream_catch message w))
    = Some (or_else message "Failed to access camera")
  ∧ or_else message "Failed to access camera" ≠ ""
  ∧ (errorBanner (render (handleError reason w)) = None ↔ reason = "")
  ∧ (errorBanner (render (handleError reason w)) = None
     ∨ errorBanner (render (handleError reason w)) = Some reason)
  ∧ startButton (render (handleError reason w)) = true
  ∧ stopButton (render (handleError reason w)) = false
  ∧ liveBadge (render (handleError reason w)) = false.
Proof.
  split; [destruct message; reflexivity|].
  split; [destruct message; discriminate|].
  split; [destruct reason; split; (reflexivity || discriminate)|].
  split; [destruct reason; [left | right]; reflexivity|].
  repeat split.
Qed.

(** X11.  A [startStream] that [stopStream] overtakes is not cancelled:
    when its promises resolve afterwards it acquires the camera, connects
    and, with the canvas in place, sets the interval.  The component is
    then connected and streaming frames while [isStreaming] is false, so
    the Start button and the "Live Connected" badge are rendered
    together. *)
Theorem overtaken_startStream_still_connects (w : World) (stream : nat) :
  videoRef w = true → is_Some (liveApiRef w) →
  ∃ w', run w [StartStream; StopStream; GetUserMediaSettled (Fulfilled stream);
               PlaySettled (Fulfilled ()); ConnectSettled (Fulfilled ())] = Some w'
        ∧ connection w' = {| isConnected := true; isStreaming := false; error := None |}
        ∧ liveApiRef w' = Some LiveApiService.Active
        ∧ stream ∈ liveStreams w'
        ∧ startButton (render w') = true ∧ liveBadge (render w') = true
        ∧ (canvasRef w && context2d w = true →
           nextTimer w ∈ timers w' ∧ frameIntervalRef w' = Some (nextTimer w)).
Proof.
  intros Hv [s Hs].
  destruct w as [ps c v cv api sr fi t n ls c2 g p k tb b64 l].
  simpl in Hv, Hs. subst v api.
  assert (∀ (x : nat) (X : gset nat), x ∈ {[ x ]} ∪ X) as Hin
    by (intros x X; apply elem_of_union; left; apply elem_of_singleton; reflexivity).
  destruct fi as [[|i]|], sr as [sr|], s, cv, c2;
    (eexists; split; [run_sets|]); fields;
    (split; [reflexivity|]); (split; [reflexivity|]); (split; [apply Hin|]);
    (split; [reflexivity|]); (split; [reflexivity|]);
    intros Hcc; try discriminate Hcc; (split; [apply Hin | reflexivity]).
Qed.

Lemma overtaken_startStream_still_connects_witness :
  ∃ w', run mounted [StartStream; StopStream; GetUserMediaSettled (Fulfilled 7);
                     PlaySettled (Fulfilled ()); ConnectSettled (Fulfilled ())] = Some w'
        ∧ connection w' = {| isConnected := true; isStreaming := false; error := None |}
        ∧ liveApiRef w' = Some LiveApiService.Active
        ∧ 7 ∈ liveStreams w'
        ∧ startButton (render w') = true ∧ liveBadge (render w') = true
        ∧ (canvasRef mounted && context2d mounted = true →
           nextTimer mounted ∈ timers w' ∧ frameIntervalRef w' = Some (nextTimer mounted)).
Proof.
  apply (overtaken_startStream_still_connects mounted 7); [reflexivity|].
  eexists. reflexivity.
Defined.

(** ** Frames *)

Lemma step_frames_accounted (w w' : World) (e : Event) :
  frames_accounted w → step w e = Some w' → frames_accounted w'.
Proof.
  unfold frames_accounted, count. intros Hacc Hstep.
  destruct w as [ps c v cv api sr fi t n ls c2 g p k tb b64 l].
  cbn [log pendingBase64 pendingToBlob] in Hacc.
  destruct e as [| |r|r|r|id drawn|blob|r|m]; simpl in Hstep.
  - injection Hstep as <-. exact Hacc.
  - injection Hstep as <-. unfold stopStream. destruct fi as [[|i]|], sr, api; exact Hacc.
  - destruct g as [|g]; [discriminate|]. injection Hstep as <-.
    destruct r as [stream|msg]; simpl; [|exact Hacc].
    destruct v; simpl; [exact Hacc|].
    unfold startStream_connect, startStream_connected; simpl.
    destruct api as [s|]; simpl; [exact Hacc|].
    rewrite andb_false_r. exact Hacc.
  - destruct p as [|p]; [discriminate|]. injection Hstep as <-.
    destruct r as [[]|msg]; simpl; [|exact Hacc].
    unfold startStream_connect, startStream_connected; simpl.
    destruct api as [s|]; simpl; [exact Hacc|].
    destruct (cv && c2 && v); exact Hacc.
  - destruct k as [|k]; [discriminate|]. injection Hstep as <-.
    unfold startStream_settled, startStream_connected.
    destruct r as [[]|msg], api as [s|]; simpl.
    + destruct (cv && c2 && v); exact Hacc.
    + destruct (cv && c2 && v); exact Hacc.
    + destruct s; exact Hacc.
    + exact Hacc.
  - destruct (bool_decide (id ∈ t)); [|discriminate].
    injection Hstep as <-. unfold frameInterval; simpl.
    destruct v, api, drawn, cv; simpl; lia.
  - destruct tb as [|tb]; [discriminate|].
    injection Hstep as <-. destruct blob; simpl; lia.
  - destruct b64 as [|b64]; [discriminate|].
    injection Hstep as <-. destruct r as [base64|msg]; simpl; [|lia].
    destruct api as [[]|]; simpl; lia.
  - destruct api as [s|]; injection Hstep as <-; [|exact Hacc].
    destruct s; simpl; try exact Hacc.
    destruct m; exact Hacc.
Qed.

(** X12.  In every state the mounted component reaches, the calls of
    [sendVideoFrame] made so far, together with the frames still being
    encoded or converted, are at most as many as the calls of [toBlob],
    and those at most as many as the calls of [drawImage]: no frame is
    submitted twice and none is submitted that was not captured. *)
Theorem frames_never_exceed_captures (es : list Event) (w : World) :
  run mounted es = Some w →
  (count isSend w + pendingBase64 w + pendingToBlob w ≤ count isToBlob w)%nat
  ∧ (count isToBlob w ≤ count isDraw w)%nat.
Proof.
  assert (frames_accounted mounted) as Hinit by (unfold frames_accounted, count; simpl; lia).
  revert Hinit. generalize mounted as w0.
  induction es as [|e es IH]; intros w0 Hacc Hrun; simpl in Hrun.
  - injection Hrun as <-. exact Hacc.
  - destruct (step w0 e) as [w1|] eqn:Hstep; [|discriminate].
    eauto using step_frames_accounted.
Qed.

Lemma frames_never_exceed_captures_witness :
  (count isSend streaming + pendingBase64 streaming + pendingToBlob streaming
   ≤ count isToBlob streaming)%nat
  ∧ (count isToBlob streaming ≤ count isDraw streaming)%nat.
Proof.
  apply (frames_never_exceed_captures
           [StartStream; GetUserMediaSettled (Fulfilled 7); PlaySettled (Fulfilled ());
            ConnectSettled (Fulfilled ()); IntervalFires 1 true]).
  vm_compute. reflexivity.
Defined.

(** X13.  [stopStream] does not cancel a frame that is being encoded:
    when [toBlob] calls back and [blobToBase64] resolves after
    [stopStream] has returned, line 79 still calls [sendVideoFrame] with
    that frame. *)
Theorem stopStream_does_not_cancel_frames
    (w : World) (blob : Blob) (base64 : string) :
  (0 < pendingToBlob w)%nat → is_Some (liveApiRef w) →
  ∃ w', run (stopStream w) [ToBlobCalls (Some blob); Base64Settled (Fulfilled base64)] = Some w'
        ∧ framesSent w' = CallSendVideoFrame base64 :: framesSent w
        ∧ connection w' = disconnected.
Proof.
  intros Htb [s Hs].
  destruct w as [ps c v cv api sr fi t n ls c2 g p k tb b64 l].
  simpl in Htb, Hs. subst api.
  destruct tb as [|tb]; [lia|].
  unfold framesSent.
  destruct fi as [[|i]|], sr as [sr|], s;
    (eexists; split; [run_sets|]); fields; split; reflexivity.
Qed.

Lemma stopStream_does_not_cancel_frames_witness :
  ∃ w', run (stopStream streaming)
          [ToBlobCalls (Some []); Base64Settled (Fulfilled "AAAA")] = Some w'
        ∧ framesSent w' = CallSendVideoFrame "AAAA" :: framesSent streaming
        ∧ connection w' = disconnected.
Proof.
  apply (stopStream_does_not_cancel_frames streaming [] "AAAA").
  - vm_compute. lia.
  - vm_compute. eexists. reflexivity.
Defined.
